(** * hack-simulator-v2: a gate-level model of the ALU, the 1-bit Mux and the Register

  The development embeds three source files of the simulator:

  - [components/alu.go]: the ALU, a fixed pipeline of 16-wide gates driven
    through named options ([UpdateOpts]);
  - [components/combinational/bit/mux.go]: the 1-bit multiplexer, built
    from a Not, two Ands and an Or, with an optional reply channel;
  - the [word] package's Register: sixteen clocked Bits updated by sixteen
    goroutines whose replies are gathered from a rendezvous channel.

  A 16-bit word ([uint16]) is a [Z] in [0, 65536); every wrap-around is
  written out. Channels are named by numbers and a send is recorded as an
  event in a trace. The arrival order of the goroutines' replies is an
  explicit schedule. *)

From Stdlib Require Import ZArith Lia Bool List Permutation.
From stdpp Require Import base list.

Local Open Scope Z_scope.

(** ** Words and lanes *)

Module util.

(** Modelled from the spec: [util.GetBoolFromUint16] is not among the
    sources; the Register takes "bit i's value from word" with it and
    vectors are "bit-indexed 0 (least significant) to 15". *)
Definition GetBoolFromUint16 (v : Z) (i : Z) : bool := Z.testbit v i.

End util.

Definition uint16 (v : Z) : Z := v mod 65536.

Definition is_uint16 (v : Z) : Prop := 0 <= v < 65536.

(** The sixteen lanes of a word, lane 0 first. *)
Definition to_lanes (w : Z) : list bool :=
  map (fun i : nat => util.GetBoolFromUint16 w (Z.of_nat i)) (seq 0 16).

(** The first [n] lanes of a word. *)
Definition lanes_upto (n : nat) (w : Z) : list bool :=
  map (fun i : nat => Z.testbit w (Z.of_nat i)) (seq 0 n).

(** The word whose bit [i] is lane [i]. *)
Fixpoint of_lanes (l : list bool) : Z :=
  match l with
  | [] => 0
  | b :: l' => Z.b2z b + 2 * of_lanes l'
  end.

(** ** Primitive gates *)

(** Modelled from the spec: the three primitive gates are not among the
    sources; "NOT(a) = ¬a. AND(a,b) = a∧b. OR(a,b) = a∨b." *)
Definition NOT (a : bool) : bool := negb a.
Definition AND (a b : bool) : bool := andb a b.
Definition OR (a b : bool) : bool := orb a b.

(** ** Package components: signals, options, the 16-wide gates and the ALU *)

Module components.

Inductive Val : Type :=
| InvalidVal
| SingleChan (b : bool)
| SixteenChan (w : Z).

(** The port names. [TargetX] to [TargetNegOut] are declared in alu.go;
    the others are used there and declared elsewhere in the package. *)
Inductive Target : Type :=
| TargetA | TargetB | TargetC | TargetD | TargetE | TargetF | TargetG
| TargetH | TargetIn | TargetSel0
| TargetX | TargetY | TargetZeroX | TargetNegX | TargetZeroY | TargetNegY
| TargetFunc | TargetNegOut.

Scheme Equality for Target.

Record UpdateOpts : Type := mkOpts { target : Target; val : Val }.

Record OrderedVal : Type := mkOrderedVal { Val_ : bool; Idx : Z }.

Record OrderedVal16 : Type := mkOrderedVal16 { Val16 : Z; Idx16 : Z }.

(** A channel is a reference; [None] is the nil channel. *)
Definition chan : Type := nat.

Inductive event : Type :=
| Send (c : chan) (m : OrderedVal)
| Send16 (c : chan) (m : OrderedVal16).

(** What a guarded send [if c != nil { c <- m }] adds to the trace. *)
Definition send (c : option chan) (m : OrderedVal) : list event :=
  match c with
  | Some ch => [Send ch m]
  | None => []
  end.

Definition send16 (c : option chan) (m : OrderedVal16) : list event :=
  match c with
  | Some ch => [Send16 ch m]
  | None => []
  end.

(** The messages of a trace that went to the callers' word channels. *)
Definition outbox16 (tr : list event) : list (chan * OrderedVal16) :=
  omap (fun e =>
          match e with
          | Send16 ch m => Some (ch, m)
          | Send _ _ => None
          end) tr.

(** *** Failure of a gate *)

Inductive GateError : Type :=
| InvalidWidth
| UninitializedSignal
| RejectedTarget (t : Target).

Inductive result (A : Type) : Type :=
| Ok (a : A)
| Err (e : GateError).

Arguments Ok {A} a.
Arguments Err {A} e.

(** The first failure aborts the evaluation: [x ← m; k] runs [k] on the
    value of [m]. *)
#[export] Instance result_bind : MBind result :=
  fun A B (k : A -> result B) (m : result A) =>
    match m with
    | Ok a => k a
    | Err e => Err e
    end.

(** Modelled from the spec: the width checks of a port are not among the
    sources; "Supplying a Signal whose width mismatches a port's expected
    width fails with InvalidWidth. Supplying Invalid on any consumed port
    fails with UninitializedSignal". *)
Definition single (v : Val) : result bool :=
  match v with
  | SingleChan b => Ok b
  | SixteenChan _ => Err InvalidWidth
  | InvalidVal => Err UninitializedSignal
  end.

Definition sixteen (v : Val) : result Z :=
  match v with
  | SixteenChan w => Ok w
  | SingleChan _ => Err InvalidWidth
  | InvalidVal => Err UninitializedSignal
  end.

(** Modelled from the spec: the method [GetBoolFromUint16] of a signal is
    not among the sources; it reads one bit of a 16-bit vector. *)
Definition GetBoolFromUint16 (v : Val) (i : Z) : result bool :=
  w ← sixteen v; Ok (util.GetBoolFromUint16 w i).

(** Modelled from the spec: how a sub-gate reads its options is not among
    the sources; "each gate type accepts a closed set of target names and
    rejects any other", and a gate "holds no signal state between calls",
    so a port that no option names stays uninitialized. *)
Fixpoint read_ports (accepted : list Target) (opts : list UpdateOpts)
    (ports : Target -> Val) : result (Target -> Val) :=
  match opts with
  | [] => Ok ports
  | opt :: rest =>
      if existsb (Target_beq (target opt)) accepted
      then read_ports accepted rest
             (fun t => if Target_beq t (target opt) then val opt else ports t)
      else Err (RejectedTarget (target opt))
  end.

Definition no_ports : Target -> Val := fun _ => InvalidVal.

(** *** The sub-gates of the ALU *)

(** Modelled from the spec: the 1-bit gates of this package are not among
    the sources; they are the primitive NOT and OR on single-bit signals. *)
Definition Not_Update (opts : list UpdateOpts) : result Val :=
  p ← read_ports [TargetIn] opts no_ports;
  a ← single (p TargetIn);
  Ok (SingleChan (NOT a)).

Definition Or_Update (opts : list UpdateOpts) : result Val :=
  p ← read_ports [TargetA; TargetB] opts no_ports;
  a ← single (p TargetA);
  b ← single (p TargetB);
  Ok (SingleChan (OR a b)).

(** Modelled from the spec: [Or8Way] is not among the sources; "OR8WAY
    OR-reduces 8 single-bit inputs to one bit". *)
Definition Or8Way_Update (opts : list UpdateOpts) : result Val :=
  p ← read_ports
         [TargetA; TargetB; TargetC; TargetD; TargetE; TargetF; TargetG;
          TargetH] opts no_ports;
  a ← single (p TargetA);
  b ← single (p TargetB);
  c ← single (p TargetC);
  d ← single (p TargetD);
  e ← single (p TargetE);
  f ← single (p TargetF);
  g ← single (p TargetG);
  h ← single (p TargetH);
  Ok (SingleChan (OR (OR (OR (OR (OR (OR (OR a b) c) d) e) f) g) h)).

(** Modelled from the spec: the 1-bit multiplexer of this package is not
    among the sources; "MUX(a,b,sel) = OR(AND(a, NOT(sel)), AND(sel,b))". *)
Definition MUX (a b sel : bool) : bool :=
  OR (AND a (NOT sel)) (AND sel b).

(** Modelled from the spec: [Not16], [And16] and [Mux16] are not among the
    sources; they "apply the corresponding 1-bit gate independently to each
    of 16 lanes; MUX16's single select bit governs all 16 lanes". *)
Definition not16 (a : Z) : Z := of_lanes (map NOT (to_lanes a)).

Definition and16 (a b : Z) : Z :=
  of_lanes (zip_with AND (to_lanes a) (to_lanes b)).

Definition mux16 (a b : Z) (sel : bool) : Z :=
  of_lanes (zip_with (fun la lb => MUX la lb sel) (to_lanes a) (to_lanes b)).

Definition Not16_Update (opts : list UpdateOpts) : result Val :=
  p ← read_ports [TargetIn] opts no_ports;
  a ← sixteen (p TargetIn);
  Ok (SixteenChan (not16 a)).

Definition And16_Update (opts : list UpdateOpts) : result Val :=
  p ← read_ports [TargetA; TargetB] opts no_ports;
  a ← sixteen (p TargetA);
  b ← sixteen (p TargetB);
  Ok (SixteenChan (and16 a b)).

Definition Mux16_Update (opts : list UpdateOpts) : result Val :=
  p ← read_ports [TargetA; TargetB; TargetSel0] opts no_ports;
  a ← sixteen (p TargetA);
  b ← sixteen (p TargetB);
  sel ← single (p TargetSel0);
  Ok (SixteenChan (mux16 a b sel)).

(** Modelled from the spec: [Add16] is not among the sources; "ADD16
    performs 16-bit two's-complement addition via a carry-chain of
    full-adders built from primitive gates; overflow silently truncates to
    16 bits (no carry-out flag is exposed)". *)
Definition XOR (a b : bool) : bool := OR (AND a (NOT b)) (AND (NOT a) b).

Definition FullAdder (a b cin : bool) : bool * bool :=
  let ab := XOR a b in
  (XOR ab cin, OR (AND a b) (AND ab cin)).

Fixpoint carry_chain (cin : bool) (xs ys : list bool) : list bool :=
  match xs, ys with
  | a :: xs', b :: ys' =>
      let '(s, cout) := FullAdder a b cin in
      s :: carry_chain cout xs' ys'
  | _, _ => []
  end.

Definition add16 (a b : Z) : Z :=
  of_lanes (carry_chain false (to_lanes a) (to_lanes b)).

Definition Add16_Update (opts : list UpdateOpts) : result Val :=
  p ← read_ports [TargetA; TargetB] opts no_ports;
  a ← sixteen (p TargetA);
  b ← sixteen (p TargetB);
  Ok (SixteenChan (add16 a b)).

(** *** The ALU (alu.go) *)

(** The inputs and flags last seen; the gates of the struct hold no signal
    between calls and are not part of the state. *)
Record ALU : Type := mkALU {
  x : Val; y : Val;
  zx : Val; nx : Val; zy : Val; ny : Val; f : Val; no : Val
}.

Definition NewALU : ALU :=
  mkALU InvalidVal InvalidVal
        InvalidVal InvalidVal InvalidVal InvalidVal InvalidVal InvalidVal.

(** The switch of [Update]'s option loop; it has no default case. *)
Definition ALU_set (alu : ALU) (opt : UpdateOpts) : ALU :=
  match target opt with
  | TargetX =>
      mkALU (val opt) (y alu) (zx alu) (nx alu) (zy alu) (ny alu) (f alu) (no alu)
  | TargetY =>
      mkALU (x alu) (val opt) (zx alu) (nx alu) (zy alu) (ny alu) (f alu) (no alu)
  | TargetZeroX =>
      mkALU (x alu) (y alu) (val opt) (nx alu) (zy alu) (ny alu) (f alu) (no alu)
  | TargetNegX =>
      mkALU (x alu) (y alu) (zx alu) (val opt) (zy alu) (ny alu) (f alu) (no alu)
  | TargetZeroY =>
      mkALU (x alu) (y alu) (zx alu) (nx alu) (val opt) (ny alu) (f alu) (no alu)
  | TargetNegY =>
      mkALU (x alu) (y alu) (zx alu) (nx alu) (zy alu) (val opt) (f alu) (no alu)
  | TargetFunc =>
      mkALU (x alu) (y alu) (zx alu) (nx alu) (zy alu) (ny alu) (val opt) (no alu)
  | TargetNegOut =>
      mkALU (x alu) (y alu) (zx alu) (nx alu) (zy alu) (ny alu) (f alu) (val opt)
  | _ => alu
  end.

(** The targets that the switch has a case for. *)
Definition ALU_targets : list Target :=
  [TargetX; TargetY; TargetZeroX; TargetNegX; TargetZeroY; TargetNegY;
   TargetFunc; TargetNegOut].

Definition ALU_accepts (t : Target) : bool :=
  existsb (Target_beq t) ALU_targets.

(** The pipeline of [Update], run on the stored inputs. *)
Definition ALU_eval (alu : ALU) : result (Val * Val * Val) :=
  (* preprocess x *)
  xZero ← Mux16_Update
    [mkOpts TargetA (x alu); mkOpts TargetB (SixteenChan 0);
     mkOpts TargetSel0 (zx alu)];
  xNeg ← Not16_Update [mkOpts TargetIn xZero];
  xPreprocessed ← Mux16_Update
    [mkOpts TargetA xZero; mkOpts TargetB xNeg; mkOpts TargetSel0 (nx alu)];
  (* preprocess y *)
  yZero ← Mux16_Update
    [mkOpts TargetA (y alu); mkOpts TargetB (SixteenChan 0);
     mkOpts TargetSel0 (zy alu)];
  yNeg ← Not16_Update [mkOpts TargetIn yZero];
  yPreprocessed ← Mux16_Update
    [mkOpts TargetA yZero; mkOpts TargetB yNeg; mkOpts TargetSel0 (ny alu)];
  (* function(x, y) *)
  xyAdd ← Add16_Update
    [mkOpts TargetA xPreprocessed; mkOpts TargetB yPreprocessed];
  xyAnd ← And16_Update
    [mkOpts TargetA xPreprocessed; mkOpts TargetB yPreprocessed];
  xyF ← Mux16_Update
    [mkOpts TargetA xyAnd; mkOpts TargetB xyAdd; mkOpts TargetSel0 (f alu)];
  (* postprocess xyF *)
  negXy ← Not16_Update [mkOpts TargetIn xyF];
  result ← Mux16_Update
    [mkOpts TargetA xyF; mkOpts TargetB negXy; mkOpts TargetSel0 (no alu)];
  (* set status flags *)
  ng ← GetBoolFromUint16 result 15;
  b0 ← GetBoolFromUint16 result 0;
  b1 ← GetBoolFromUint16 result 1;
  b2 ← GetBoolFromUint16 result 2;
  b3 ← GetBoolFromUint16 result 3;
  b4 ← GetBoolFromUint16 result 4;
  b5 ← GetBoolFromUint16 result 5;
  b6 ← GetBoolFromUint16 result 6;
  b7 ← GetBoolFromUint16 result 7;
  loByteOr ← Or8Way_Update
    [mkOpts TargetA (SingleChan b0); mkOpts TargetB (SingleChan b1);
     mkOpts TargetC (SingleChan b2); mkOpts TargetD (SingleChan b3);
     mkOpts TargetE (SingleChan b4); mkOpts TargetF (SingleChan b5);
     mkOpts TargetG (SingleChan b6); mkOpts TargetH (SingleChan b7)];
  b8 ← GetBoolFromUint16 result 8;
  b9 ← GetBoolFromUint16 result 9;
  b10 ← GetBoolFromUint16 result 10;
  b11 ← GetBoolFromUint16 result 11;
  b12 ← GetBoolFromUint16 result 12;
  b13 ← GetBoolFromUint16 result 13;
  b14 ← GetBoolFromUint16 result 14;
  b15 ← GetBoolFromUint16 result 15;
  hiByteOr ← Or8Way_Update
    [mkOpts TargetA (SingleChan b8); mkOpts TargetB (SingleChan b9);
     mkOpts TargetC (SingleChan b10); mkOpts TargetD (SingleChan b11);
     mkOpts TargetE (SingleChan b12); mkOpts TargetF (SingleChan b13);
     mkOpts TargetG (SingleChan b14); mkOpts TargetH (SingleChan b15)];
  zrFlag ← Or_Update [mkOpts TargetA loByteOr; mkOpts TargetB hiByteOr];
  zr ← Not_Update [mkOpts TargetIn zrFlag];
  Ok (result, zr, SingleChan ng).

(** The output word of the pipeline, in terms of the gates' words. *)
Definition gate_out (vx vy : Z) (fzx fnx fzy fny ff fno : bool) : Z :=
  let xZero := mux16 vx 0 fzx in
  let xPreprocessed := mux16 xZero (not16 xZero) fnx in
  let yZero := mux16 vy 0 fzy in
  let yPreprocessed := mux16 yZero (not16 yZero) fny in
  let xyF :=
    mux16 (and16 xPreprocessed yPreprocessed)
          (add16 xPreprocessed yPreprocessed) ff in
  mux16 xyF (not16 xyF) fno.

(** The zero flag computed from a word by the two Or8Ways, the Or and the
    Not. *)
Definition gate_zr (w : Z) : bool :=
  let bit i := Z.testbit w i in
  NOT (OR (OR (OR (OR (OR (OR (OR (OR (bit 0) (bit 1)) (bit 2)) (bit 3))
                            (bit 4)) (bit 5)) (bit 6)) (bit 7))
          (OR (OR (OR (OR (OR (OR (OR (bit 8) (bit 9)) (bit 10)) (bit 11))
                            (bit 12)) (bit 13)) (bit 14)) (bit 15))).

(** [alu.Update(opts...)]: the options overwrite the stored inputs, then
    the pipeline runs. The ALU after the call is returned with the three
    results (output, zr, ng). *)
Definition ALU_Update (alu : ALU) (opts : list UpdateOpts)
    : ALU * result (Val * Val * Val) :=
  let alu' := fold_left ALU_set opts alu in
  (alu', ALU_eval alu').

End components.

(** ** Package bit (components/combinational/bit): the 1-bit multiplexer *)

Module combinational_bit.

Import components.

(** Modelled from the spec: the [Not], [And] and [Or] gates of this package
    are not among the sources; they compute the primitive NOT, AND and OR.
    mux.go calls them with a nil channel and index 0; they reply on their
    channel the way [Mux.Update] does, only when it is not nil. *)
Definition Not_Update (in_ : bool) (c : option chan) (idx : Z)
    : bool * list event :=
  let val := NOT in_ in
  (val, send c (mkOrderedVal val idx)).

Definition And_Update (a b : bool) (c : option chan) (idx : Z)
    : bool * list event :=
  let val := AND a b in
  (val, send c (mkOrderedVal val idx)).

Definition Or_Update (a b : bool) (c : option chan) (idx : Z)
    : bool * list event :=
  let val := OR a b in
  (val, send c (mkOrderedVal val idx)).

(** [mux.Update(a, b, sel, c, idx)] (mux.go): the value and the messages
    sent during the call, in order. *)
Definition Mux_Update (a b sel : bool) (c : option chan) (idx : Z)
    : bool * list event :=
  let '(notSel, t1) := Not_Update sel None 0 in
  let '(aSel, t2) := And_Update a notSel None 0 in
  let '(bSel, t3) := And_Update sel b None 0 in
  let '(val, t4) := Or_Update aSel bSel None 0 in
  (val, t1 ++ t2 ++ t3 ++ t4 ++ send c (mkOrderedVal val idx)).

End combinational_bit.

(** ** Package bit (components/sequential/bit): the clocked cell *)

Module sequential_bit.

Import components.

(** Modelled from the spec: [bit.Bit] is not among the sources. "Bit: holds
    exactly one committed boolean current. A separate pending value is
    staged by the most recent Update call prior to the next Tick." *)
Record Bit : Type := mkBit { current : bool; pending : bool }.

(** Modelled from the spec: "Update(input, loadEnable) computes pending =
    loadEnable ? input : current and returns current (the pre-tick value) —
    it never mutates current directly"; each invocation is tagged with its
    index and gives "exactly one reply". *)
Definition Bit_Update (bit : Bit) (in_ load : bool) (c : option chan)
    (idx : Z) : Bit * bool * list event :=
  let val := current bit in
  (mkBit (current bit) (if load then in_ else current bit),
   val, send c (mkOrderedVal val idx)).

(** Modelled from the spec: "transition occurs only on Tick, moving current
    to the value staged as pending by the most recent Update". *)
Definition Bit_Tick (bit : Bit) : Bit := mkBit (pending bit) (pending bit).

End sequential_bit.

(** ** Package word: the Register *)

Module word.

Import components.
Import sequential_bit.

(** [bits] stands for the array [[16]*bit.Bit]: a well-formed register has
    sixteen of them. *)
Record Register : Type := mkRegister { bits : list Bit; c : chan }.

Definition wf (reg : Register) : Prop := length (bits reg) = 16%nat.

(** The messages of a trace that were sent on channel [ch], in order. *)
Definition inbox (ch : chan) (tr : list event) : list OrderedVal :=
  omap (fun e =>
          match e with
          | Send ch' m => if Nat.eqb ch' ch then Some m else None
          | Send16 _ _ => None
          end) tr.

(** One turn of the receive loop on a reply [d1]:
    [if d1.Val { outVal |= 1 << uint16(d1.Idx) }] on a [uint16]. *)
Definition collect (outVal : Z) (d1 : OrderedVal) : Z :=
  if Val_ d1
  then Z.lor outVal (uint16 (Z.shiftl 1 (uint16 (Idx d1))))
  else outVal.

(** The receive loop [for i := 0; i < n; i++ { d1 := <-reg.c; ... }] on the
    replies that arrive; when fewer than [n] arrive the receive blocks for
    ever and there is no result. *)
Fixpoint gather (n : nat) (queue : list OrderedVal) (outVal : Z)
    : option Z :=
  match n with
  | O => Some outVal
  | S n' =>
      match queue with
      | [] => None
      | d1 :: queue' => gather n' queue' (collect outVal d1)
      end
  end.

(** The goroutine started for lane [i]:
    [go bit.Update(util.GetBoolFromUint16(in, uint16(i)), load, reg.c, i)]. *)
Definition lane (reg : Register) (in_ : Z) (load : bool) (i : nat)
    (bit : Bit) : Bit * bool * list event :=
  Bit_Update bit (util.GetBoolFromUint16 in_ (uint16 (Z.of_nat i))) load
             (Some (word.c reg)) (Z.of_nat i).

(** [reg.Update(in, load, c, idx)]. The sixteen goroutines touch one Bit
    each; [sched] lists the lanes in the order in which their replies reach
    the rendezvous channel. The result is the register after the call, the
    returned word and the messages sent, or [None] when the call never
    returns. *)
Definition Register_Update (sched : list nat) (reg : Register) (in_ : Z)
    (load : bool) (c : option chan) (idx : Z)
    : option (Register * Z * list event) :=
  let runs := imap (lane reg in_ load) (bits reg) in
  let sent :=
    sched ≫= (fun i => from_option (fun r => r.2) [] (runs !! i)) in
  outVal ← gather 16 (inbox (word.c reg) sent) 0;
  Some (mkRegister ((fun r => r.1.1) <$> runs) (word.c reg),
        outVal,
        sent ++ send16 c (mkOrderedVal16 outVal idx)).

(** [reg.Tick()]. *)
Definition Register_Tick (reg : Register) : Register :=
  mkRegister (Bit_Tick <$> bits reg) (word.c reg).

(** Bit [j] of the word after one reply. *)
Definition hits (j : Z) (d : OrderedVal) : bool :=
  Val_ d && ((j <? 16) && (uint16 (Idx d) =? j)).

(** What the goroutine of lane [i] leaves in its Bit. *)
Definition staged (in_ : Z) (load : bool) (i : nat) (bit : Bit) : Bit :=
  mkBit (current bit)
        (if load then Z.testbit in_ (uint16 (Z.of_nat i)) else current bit).

(** The reply of lane [i]. *)
Definition reply (bs : list Bit) (i : nat) : OrderedVal :=
  mkOrderedVal (default false (current <$> bs !! i)) (Z.of_nat i).

(** The schedules of a call: every lane replies once. *)
Definition schedule (sched : list nat) : Prop := sched ≡ₚ seq 0 16.

End word.

(** ** The documented behaviour of the ALU *)

Module alu_doc.

Import components.

(** The options that drive the two inputs and the six flags. *)
Definition inputs (vx vy : Z) (fzx fnx fzy fny ff fno : bool)
    : list UpdateOpts :=
  [mkOpts TargetX (SixteenChan vx); mkOpts TargetY (SixteenChan vy);
   mkOpts TargetZeroX (SingleChan fzx); mkOpts TargetNegX (SingleChan fnx);
   mkOpts TargetZeroY (SingleChan fzy); mkOpts TargetNegY (SingleChan fny);
   mkOpts TargetFunc (SingleChan ff); mkOpts TargetNegOut (SingleChan fno)].

(** A row of the opcode table in the comment of [ALU.Update]: the six
    flags and the documented output as a function of x and y. *)
Record opcode : Type := mkOpcode {
  op_zx : bool; op_nx : bool; op_zy : bool; op_ny : bool;
  op_f : bool; op_no : bool;
  op_out : Z -> Z -> Z
}.

Definition opcode_table : list opcode :=
  [ mkOpcode true  false true  false true  false (fun _ _ => 0);
    mkOpcode true  true  true  true  true  true  (fun _ _ => 1);
    mkOpcode true  true  true  false true  false (fun _ _ => -1);
    mkOpcode false false true  true  false false (fun vx _ => vx);
    mkOpcode true  true  false false false false (fun _ vy => vy);
    mkOpcode false false true  true  false true  (fun vx _ => Z.lnot vx);
    mkOpcode true  true  false false false true  (fun _ vy => Z.lnot vy);
    mkOpcode false false true  true  true  true  (fun vx _ => - vx);
    mkOpcode true  true  false false true  true  (fun _ vy => - vy);
    mkOpcode false true  true  true  true  true  (fun vx _ => vx + 1);
    mkOpcode true  true  false true  true  true  (fun _ vy => vy + 1);
    mkOpcode false false true  true  true  false (fun vx _ => vx - 1);
    mkOpcode true  true  false false true  false (fun _ vy => vy - 1);
    mkOpcode false false false false true  false (fun vx vy => vx + vy);
    mkOpcode false true  false false true  true  (fun vx vy => vx - vy);
    mkOpcode false false false true  true  true  (fun vx vy => vy - vx);
    mkOpcode false false false false false false (fun vx vy => Z.land vx vy);
    mkOpcode false true  false true  false true  (fun vx vy => Z.lor vx vy) ].

(** The four stages as the specification words them, on integers. *)
Definition NOT16 (v : Z) : Z := uint16 (Z.lnot v).
Definition ADD16 (a b : Z) : Z := uint16 (a + b).
Definition AND16 (a b : Z) : Z := Z.land a b.

Definition four_stage (vx vy : Z) (fzx fnx fzy fny ff fno : bool) : Z :=
  let x' := if fzx then 0 else vx in
  let y' := if fzy then 0 else vy in
  let x'' := if fnx then NOT16 x' else x' in
  let y'' := if fny then NOT16 y' else y' in
  let raw := if ff then ADD16 x'' y'' else AND16 x'' y'' in
  if fno then NOT16 raw else raw.

(** The value of a word read as a two's-complement number. *)
Definition signed16 (w : Z) : Z := if w <? 32768 then w else w - 65536.

(** The first of the three results of a call. *)
Definition output (r : result (Val * Val * Val)) : result Val :=
  match r with
  | Ok (out, _, _) => Ok out
  | Err e => Err e
  end.

End alu_doc.

(** ** What the option loop of the ALU leaves behind *)

Module alu_opts.

Import components.

(** Equality of targets is decidable. *)
#[export] Instance Target_eq_decision : EqDecision Target := Target_eq_dec.

(** The last option of [opts] that names target [t], if there is one. *)
Definition last_named (t : Target) (opts : list UpdateOpts)
    : option UpdateOpts :=
  find (fun opt => Target_beq (target opt) t) (rev opts).

(** The value of the last option that names [t], or [old] when none does. *)
Definition stored_after (t : Target) (opts : list UpdateOpts) (old : Val)
    : Val :=
  from_option val old (last_named t opts).

End alu_opts.

(** ** The constructor of the Register *)

Module word_new.

Import components sequential_bit word.

(** [NewRegister()]: the loop fills the sixteen places with [bit.NewBit()].
    [newBit] stands for the cell that [bit.NewBit()] returns, which is not
    among the sources, and [ch] for the channel that [make] creates. *)
Definition NewRegister (newBit : Bit) (ch : chan) : Register :=
  mkRegister ((fun _ : nat => newBit) <$> seq 0 16) ch.

End word_new.

(** * Words as lanes *)

(** Reading the lanes of a word and putting them back together keeps its
    low bits. *)

Section Lanes.

Lemma to_lanes_upto w : to_lanes w = lanes_upto 16 w.
Proof. reflexivity. Qed.

Lemma lanes_upto_S n w :
  lanes_upto (S n) w = Z.odd w :: lanes_upto n (Z.div2 w).
Proof.
  unfold lanes_upto. rewrite <- cons_seq, <- seq_shift, map_cons, map_map.
  rewrite Z.bit0_odd. f_equal. apply map_ext. intros i.
  rewrite Nat2Z.inj_succ, Z.div2_div, Z.div2_bits by lia. reflexivity.
Qed.

Lemma length_lanes_upto n w : length (lanes_upto n w) = n.
Proof. unfold lanes_upto. now rewrite length_map, length_seq. Qed.

Lemma mod_double s k m :
  0 <= s < 2 -> 0 < m -> (s + 2 * k) mod (2 * m) = s + 2 * (k mod m).
Proof.
  intros Hs Hm. symmetry.
  apply Z.mod_unique with (q := k / m).
  - left. pose proof (Z.mod_pos_bound k m Hm). lia.
  - pose proof (Z.div_mod k m). lia.
Qed.

Lemma b2z_range b : 0 <= Z.b2z b < 2.
Proof. destruct b; simpl; lia. Qed.

Lemma pow2_S n : 2 ^ Z.of_nat (S n) = 2 * 2 ^ Z.of_nat n.
Proof. rewrite Nat2Z.inj_succ, Z.pow_succ_r by lia. reflexivity. Qed.

Lemma pow2_pos n : 0 < 2 ^ Z.of_nat n.
Proof. apply Z.pow_pos_nonneg; lia. Qed.

Lemma of_lanes_upto n : forall w,
  of_lanes (lanes_upto n w) = w mod 2 ^ Z.of_nat n.
Proof.
  induction n as [|n IH]; intros w.
  - simpl. now rewrite Z.mod_1_r.
  - rewrite lanes_upto_S, pow2_S. cbn [of_lanes]. rewrite IH.
    rewrite (Z.div2_odd w) at 3.
    rewrite (Z.add_comm (2 * Z.div2 w)).
    rewrite mod_double; auto using b2z_range, pow2_pos.
Qed.

Lemma of_lanes_range l : 0 <= of_lanes l < 2 ^ Z.of_nat (length l).
Proof.
  induction l as [|b l IH].
  - simpl. lia.
  - cbn [length of_lanes]. rewrite pow2_S. pose proof (b2z_range b). lia.
Qed.

End Lanes.

(** The 16-wide gates, built lane by lane from the primitive gates, compute
    the usual operations on integers modulo 2^16. *)

Section GateWords.

Import components.

Lemma zip_with_map_same {A B C D : Type} (g : B -> C -> D) (p : A -> B)
    (q : A -> C) (l : list A) :
  zip_with g (map p l) (map q l) = map (fun i => g (p i) (q i)) l.
Proof. induction l as [|i l IH]; simpl; [reflexivity | now rewrite IH]. Qed.

Lemma uint16_pow w : uint16 w = w mod 2 ^ Z.of_nat 16.
Proof. reflexivity. Qed.

Lemma not16_spec a : not16 a = uint16 (Z.lnot a).
Proof.
  unfold not16. rewrite (to_lanes_upto a), uint16_pow, <- of_lanes_upto.
  f_equal. unfold lanes_upto. rewrite map_map. apply map_ext. intros i.
  unfold NOT. now rewrite Z.lnot_spec by lia.
Qed.

Lemma and16_spec a b : and16 a b = uint16 (Z.land a b).
Proof.
  unfold and16.
  rewrite (to_lanes_upto a), (to_lanes_upto b), uint16_pow, <- of_lanes_upto.
  f_equal. unfold lanes_upto. rewrite zip_with_map_same. apply map_ext.
  intros i. unfold AND. now rewrite Z.land_spec.
Qed.

Lemma MUX_spec a b sel : MUX a b sel = if sel then b else a.
Proof. destruct a, b, sel; reflexivity. Qed.

Lemma mux16_spec a b sel : mux16 a b sel = uint16 (if sel then b else a).
Proof.
  unfold mux16.
  rewrite (to_lanes_upto a), (to_lanes_upto b), uint16_pow, <- of_lanes_upto.
  f_equal. unfold lanes_upto. rewrite zip_with_map_same. apply map_ext.
  intros i. rewrite MUX_spec. now destruct sel.
Qed.

Lemma FullAdder_spec a b cin :
  Z.b2z (FullAdder a b cin).1 + 2 * Z.b2z (FullAdder a b cin).2
  = Z.b2z a + Z.b2z b + Z.b2z cin.
Proof. destruct a, b, cin; reflexivity. Qed.

Lemma carry_chain_spec n : forall a b cin,
  of_lanes (carry_chain cin (lanes_upto n a) (lanes_upto n b))
  = (a + b + Z.b2z cin) mod 2 ^ Z.of_nat n.
Proof.
  induction n as [|n IH]; intros a b cin.
  - simpl. now rewrite Z.mod_1_r.
  - rewrite !lanes_upto_S, pow2_S. cbn [carry_chain].
    pose proof (FullAdder_spec (Z.odd a) (Z.odd b) cin) as Hfa.
    destruct (FullAdder (Z.odd a) (Z.odd b) cin) as [s cout].
    cbn [fst snd of_lanes] in *. rewrite IH.
    rewrite <- mod_double by auto using b2z_range, pow2_pos.
    f_equal. rewrite (Z.div2_odd a) at 2. rewrite (Z.div2_odd b) at 2. lia.
Qed.

Lemma add16_spec a b : add16 a b = uint16 (a + b).
Proof.
  unfold add16.
  rewrite (to_lanes_upto a), (to_lanes_upto b), carry_chain_spec, uint16_pow.
  f_equal. simpl. lia.
Qed.

End GateWords.

(** * The ALU pipeline on words *)

Section ALUPipeline.

Import components alu_doc.

Lemma uint16_range w : is_uint16 (uint16 w).
Proof. unfold is_uint16, uint16. apply Z.mod_pos_bound. lia. Qed.

Lemma uint16_small w : is_uint16 w -> uint16 w = w.
Proof. unfold is_uint16, uint16. intros H. now apply Z.mod_small. Qed.

Lemma land_range a b : is_uint16 a -> is_uint16 b -> is_uint16 (Z.land a b).
Proof.
  intros Ha _. rewrite <- (uint16_small a Ha). unfold uint16.
  change 65536 with (2 ^ 16). rewrite <- Z.land_ones by lia.
  rewrite <- Z.land_assoc, (Z.land_comm (Z.ones 16)), Z.land_assoc.
  rewrite Z.land_ones by lia. apply uint16_range.
Qed.

Lemma NOT16_range a : is_uint16 (NOT16 a).
Proof. apply uint16_range. Qed.

Lemma ADD16_range a b : is_uint16 (ADD16 a b).
Proof. apply uint16_range. Qed.

Lemma zero_range : is_uint16 0.
Proof. unfold is_uint16. lia. Qed.

Lemma if_range (c : bool) a b :
  is_uint16 a -> is_uint16 b -> is_uint16 (if c then a else b).
Proof. now destruct c. Qed.

Create HintDb u16.

Hint Resolve uint16_range land_range NOT16_range ADD16_range zero_range
  if_range : u16.

Lemma mux16_select a b sel :
  is_uint16 a -> is_uint16 b -> mux16 a b sel = if sel then b else a.
Proof.
  intros Ha Hb. rewrite mux16_spec. apply uint16_small. now destruct sel.
Qed.

Lemma not16_NOT16 a : not16 a = NOT16 a.
Proof. apply not16_spec. Qed.

Lemma add16_ADD16 a b : add16 a b = ADD16 a b.
Proof. apply add16_spec. Qed.

Lemma and16_AND16 a b : is_uint16 a -> is_uint16 b -> and16 a b = AND16 a b.
Proof.
  intros Ha Hb. rewrite and16_spec. apply uint16_small. now apply land_range.
Qed.

Lemma ALU_set_inputs alu vx vy fzx fnx fzy fny ff fno :
  fold_left ALU_set (inputs vx vy fzx fnx fzy fny ff fno) alu
  = mkALU (SixteenChan vx) (SixteenChan vy) (SingleChan fzx)
          (SingleChan fnx) (SingleChan fzy) (SingleChan fny)
          (SingleChan ff) (SingleChan fno).
Proof. reflexivity. Qed.

Lemma Mux16_Update_ok a b sel :
  Mux16_Update
    [mkOpts TargetA (SixteenChan a); mkOpts TargetB (SixteenChan b);
     mkOpts TargetSel0 (SingleChan sel)]
  = Ok (SixteenChan (mux16 a b sel)).
Proof. reflexivity. Qed.

Lemma Not16_Update_ok a :
  Not16_Update [mkOpts TargetIn (SixteenChan a)] = Ok (SixteenChan (not16 a)).
Proof. reflexivity. Qed.

Lemma Add16_Update_ok a b :
  Add16_Update [mkOpts TargetA (SixteenChan a); mkOpts TargetB (SixteenChan b)]
  = Ok (SixteenChan (add16 a b)).
Proof. reflexivity. Qed.

Lemma And16_Update_ok a b :
  And16_Update [mkOpts TargetA (SixteenChan a); mkOpts TargetB (SixteenChan b)]
  = Ok (SixteenChan (and16 a b)).
Proof. reflexivity. Qed.

Lemma Or8Way_Update_ok a b c d e g h i :
  Or8Way_Update
    [mkOpts TargetA (SingleChan a); mkOpts TargetB (SingleChan b);
     mkOpts TargetC (SingleChan c); mkOpts TargetD (SingleChan d);
     mkOpts TargetE (SingleChan e); mkOpts TargetF (SingleChan g);
     mkOpts TargetG (SingleChan h); mkOpts TargetH (SingleChan i)]
  = Ok (SingleChan (OR (OR (OR (OR (OR (OR (OR a b) c) d) e) g) h) i)).
Proof. reflexivity. Qed.

Lemma Or_Update_ok a b :
  Or_Update [mkOpts TargetA (SingleChan a); mkOpts TargetB (SingleChan b)]
  = Ok (SingleChan (OR a b)).
Proof. reflexivity. Qed.

Lemma Not_Update_ok a :
  Not_Update [mkOpts TargetIn (SingleChan a)] = Ok (SingleChan (NOT a)).
Proof. reflexivity. Qed.

Lemma bind_Ok {A B : Type} (a : A) (k : A -> result B) :
  mbind k (Ok a) = k a.
Proof. reflexivity. Qed.

Lemma GetBoolFromUint16_ok w i :
  GetBoolFromUint16 (SixteenChan w) i = Ok (Z.testbit w i).
Proof. reflexivity. Qed.

Ltac gate_step :=
  first
    [ rewrite bind_Ok
    | rewrite Mux16_Update_ok | rewrite Not16_Update_ok
    | rewrite Add16_Update_ok | rewrite And16_Update_ok
    | rewrite Or8Way_Update_ok | rewrite Or_Update_ok
    | rewrite Not_Update_ok | rewrite GetBoolFromUint16_ok ].

Lemma ALU_eval_gates vx vy fzx fnx fzy fny ff fno :
  ALU_eval (mkALU (SixteenChan vx) (SixteenChan vy) (SingleChan fzx)
                  (SingleChan fnx) (SingleChan fzy) (SingleChan fny)
                  (SingleChan ff) (SingleChan fno))
  = let out := gate_out vx vy fzx fnx fzy fny ff fno in
    Ok (SixteenChan out, SingleChan (gate_zr out),
        SingleChan (Z.testbit out 15)).
Proof.
  unfold ALU_eval. cbn [x y zx nx zy ny f no].
  repeat gate_step. unfold gate_out, gate_zr. cbv zeta.
  reflexivity.
Qed.

Lemma gate_out_four_stage vx vy fzx fnx fzy fny ff fno :
  is_uint16 vx -> is_uint16 vy ->
  gate_out vx vy fzx fnx fzy fny ff fno
  = four_stage vx vy fzx fnx fzy fny ff fno.
Proof.
  intros Hx Hy. unfold gate_out, four_stage. cbv zeta.
  rewrite (mux16_select vx 0), (mux16_select vy 0) by auto with u16.
  set (x' := if fzx then 0 else vx).
  set (y' := if fzy then 0 else vy).
  assert (Hx' : is_uint16 x') by (subst x'; auto with u16).
  assert (Hy' : is_uint16 y') by (subst y'; auto with u16).
  rewrite !not16_NOT16.
  rewrite (mux16_select x'), (mux16_select y') by auto with u16.
  set (x'' := if fnx then NOT16 x' else x').
  set (y'' := if fny then NOT16 y' else y').
  assert (Hx'' : is_uint16 x'') by (subst x''; auto with u16).
  assert (Hy'' : is_uint16 y'') by (subst y''; auto with u16).
  rewrite add16_ADD16, and16_AND16 by assumption.
  rewrite (mux16_select (AND16 x'' y'')) by (unfold AND16; auto with u16).
  set (raw := if ff then ADD16 x'' y'' else AND16 x'' y'').
  assert (Hraw : is_uint16 raw)
    by (subst raw; unfold AND16; auto with u16).
  now rewrite mux16_select by auto with u16.
Qed.

Lemma four_stage_range vx vy fzx fnx fzy fny ff fno :
  is_uint16 vx -> is_uint16 vy ->
  is_uint16 (four_stage vx vy fzx fnx fzy fny ff fno).
Proof.
  intros Hx Hy. unfold four_stage, AND16. cbv zeta. auto 10 with u16.
Qed.

Lemma ALU_Update_inputs alu vx vy fzx fnx fzy fny ff fno :
  is_uint16 vx -> is_uint16 vy ->
  let out := four_stage vx vy fzx fnx fzy fny ff fno in
  (ALU_Update alu (inputs vx vy fzx fnx fzy fny ff fno)).2
  = Ok (SixteenChan out, SingleChan (gate_zr out),
        SingleChan (Z.testbit out 15)).
Proof.
  intros Hx Hy out. unfold ALU_Update. cbn [snd].
  rewrite ALU_set_inputs, ALU_eval_gates. cbv zeta.
  now rewrite gate_out_four_stage.
Qed.

End ALUPipeline.

(** * The ALU's results *)

Section ALUResults.

Import components alu_doc.

Lemma NOT16_small a : is_uint16 a -> NOT16 a = 65535 - a.
Proof.
  unfold is_uint16, NOT16, uint16, Z.lnot. intros Ha.
  symmetry. apply Z.mod_unique with (q := -1); lia.
Qed.

Lemma land_ones16 a : is_uint16 a -> Z.land a 65535 = a.
Proof.
  intros Ha. change 65535 with (Z.ones 16). rewrite Z.land_ones by lia.
  now apply uint16_small.
Qed.

Lemma uint16_testbit w i :
  Z.testbit (uint16 w) i = (i <? 16) && Z.testbit w i.
Proof.
  unfold uint16. change 65536 with (2 ^ 16).
  apply Z.testbit_mod_pow2. lia.
Qed.

Lemma de_morgan16 a b :
  NOT16 (AND16 (NOT16 a) (NOT16 b)) = uint16 (Z.lor a b).
Proof.
  unfold NOT16, AND16. apply Z.bits_inj'. intros n Hn.
  rewrite !uint16_testbit, Z.lnot_spec, Z.land_spec, !uint16_testbit,
    !Z.lnot_spec, Z.lor_spec by assumption.
  destruct (n <? 16), (Z.testbit a n), (Z.testbit b n); reflexivity.
Qed.

Lemma gate_zr_spec w : is_uint16 w -> gate_zr w = true <-> w = 0.
Proof.
  intros Hw. split.
  - unfold gate_zr, NOT, OR. cbv zeta. rewrite negb_true_iff. intros H.
    rewrite !orb_false_iff in H. decompose [and] H. clear H.
    rewrite <- (uint16_small w Hw), uint16_pow, <- of_lanes_upto.
    unfold lanes_upto. cbv [seq map Z.of_nat Pos.of_succ_nat Pos.succ].
    repeat match goal with E : Z.testbit w _ = false |- _ =>
      rewrite E; clear E end.
    reflexivity.
  - intros ->. reflexivity.
Qed.

Lemma sign_bit_spec w :
  is_uint16 w -> Z.testbit w 15 = true <-> signed16 w < 0.
Proof.
  unfold is_uint16, signed16. intros Hw.
  rewrite Z.testbit_true by lia. change (2 ^ 15) with 32768.
  destruct (Z.ltb_spec w 32768); split; intros H1; try lia.
  - rewrite Z.div_small in H1 by lia. discriminate.
  - replace w with (1 * 32768 + (w - 32768)) by lia.
    rewrite Z.div_add_l, Z.div_small by lia. reflexivity.
Qed.

End ALUResults.

(** * The ALU: opcode table, reference computation, flags *)

Section ALUClaims.

Import components alu_doc.

Ltac wrap16 :=
  unfold ADD16, uint16 in *; unfold is_uint16 in *;
  Z.div_mod_to_equations; lia.

(** C1. Every row of the 18-row opcode table: with the row's six flags,
    the first result of [ALU.Update] on 16-bit x and y is the row's
    documented function of x and y, taken in 16-bit two's complement. *)
Theorem opcode_table_exact (r : opcode) (alu : ALU) (vx vy : Z) :
  In r opcode_table -> is_uint16 vx -> is_uint16 vy ->
  length opcode_table = 18%nat /\
  output (ALU_Update alu
            (inputs vx vy (op_zx r) (op_nx r) (op_zy r) (op_ny r)
                    (op_f r) (op_no r))).2
  = Ok (SixteenChan (uint16 (op_out r vx vy))).
Proof.
  intros Hr Hx Hy. split; [reflexivity|].
  rewrite ALU_Update_inputs by assumption. cbv zeta. cbn [output].
  do 2 f_equal.
  assert (H0 : NOT16 0 = 65535) by reflexivity.
  pose proof (NOT16_small vx Hx) as Hnx.
  pose proof (NOT16_small vy Hy) as Hny.
  pose proof (ADD16_range (NOT16 vx) vy) as Hxy.
  pose proof (ADD16_range vx (NOT16 vy)) as Hyx.
  pose proof (ADD16_range vx 65535) as Hx1.
  pose proof (ADD16_range 65535 vy) as Hy1.
  pose proof (ADD16_range (NOT16 vx) 65535) as Hx2.
  pose proof (ADD16_range 65535 (NOT16 vy)) as Hy2.
  cbn [In opcode_table] in Hr.
  repeat (destruct Hr as [<- | Hr]); [.. | destruct Hr];
    cbn [op_zx op_nx op_zy op_ny op_f op_no op_out];
    unfold four_stage; cbv zeta iota; rewrite ?H0.
  - reflexivity.
  - reflexivity.
  - reflexivity.
  - unfold AND16. rewrite land_ones16, uint16_small by assumption.
    reflexivity.
  - unfold AND16. rewrite Z.land_comm, land_ones16, uint16_small
      by assumption. reflexivity.
  - unfold AND16. rewrite land_ones16 by assumption. reflexivity.
  - unfold AND16. rewrite Z.land_comm, land_ones16 by assumption.
    reflexivity.
  - rewrite NOT16_small by assumption. wrap16.
  - rewrite NOT16_small by assumption. wrap16.
  - rewrite (NOT16_small (ADD16 _ _)), Hnx by assumption. wrap16.
  - rewrite (NOT16_small (ADD16 _ _)), Hny by assumption. wrap16.
  - wrap16.
  - wrap16.
  - reflexivity.
  - rewrite (NOT16_small (ADD16 _ _)), Hnx by assumption. wrap16.
  - rewrite (NOT16_small (ADD16 _ _)), Hny by assumption. wrap16.
  - unfold AND16. symmetry. apply uint16_small. now apply land_range.
  - apply de_morgan16.
Qed.

Lemma opcode_table_exact_witness :
  output (ALU_Update NewALU (inputs 5 3 false true false false true true)).2
  = Ok (SixteenChan 2).
Proof.
  refine (proj2 (opcode_table_exact
    (mkOpcode false true false false true true (fun vx vy => vx - vy))
    NewALU 5 3 _ _ _)).
  - simpl. tauto.
  - unfold is_uint16. lia.
  - unfold is_uint16. lia.
Defined.

(** C2. For 16-bit x and y and any six flags, the first result of
    [ALU.Update] is the four-stage reference computation: zero-conditioning,
    negate-conditioning, function select, output negation. *)
Theorem ALU_Update_four_stage (alu : ALU) (vx vy : Z)
    (fzx fnx fzy fny ff fno : bool) :
  is_uint16 vx -> is_uint16 vy ->
  output (ALU_Update alu (inputs vx vy fzx fnx fzy fny ff fno)).2
  = Ok (SixteenChan (four_stage vx vy fzx fnx fzy fny ff fno)).
Proof.
  intros Hx Hy. now rewrite ALU_Update_inputs by assumption.
Qed.

Lemma ALU_Update_four_stage_witness :
  output (ALU_Update NewALU (inputs 12 10 false true false true false true)).2
  = Ok (SixteenChan (four_stage 12 10 false true false true false true))
  /\ four_stage 12 10 false true false true false true = 14.
Proof.
  split.
  - apply ALU_Update_four_stage; unfold is_uint16; lia.
  - reflexivity.
Defined.

(** C3. For 16-bit x and y and any six flags, [ALU.Update] returns a 16-bit
    output word with its two flags: zr is true exactly when the word is
    0x0000, and ng is bit 15 of the word, true exactly when the word is
    negative in two's complement. *)
Theorem ALU_Update_flags (alu : ALU) (vx vy : Z)
    (fzx fnx fzy fny ff fno : bool) :
  is_uint16 vx -> is_uint16 vy ->
  exists (out : Z) (zr ng : bool),
    (ALU_Update alu (inputs vx vy fzx fnx fzy fny ff fno)).2
    = Ok (SixteenChan out, SingleChan zr, SingleChan ng)
    /\ is_uint16 out
    /\ (zr = true <-> out = 0)
    /\ ng = Z.testbit out 15
    /\ (ng = true <-> signed16 out < 0).
Proof.
  intros Hx Hy.
  pose proof (four_stage_range vx vy fzx fnx fzy fny ff fno Hx Hy) as Hout.
  eexists _, _, _. split; [now apply ALU_Update_inputs|].
  split; [assumption|]. split; [now apply gate_zr_spec|].
  split; [reflexivity|]. now apply sign_bit_spec.
Qed.

Lemma ALU_Update_flags_witness :
  exists (out : Z) (zr ng : bool),
    (ALU_Update NewALU (inputs 7 7 false true false false true true)).2
    = Ok (SixteenChan out, SingleChan zr, SingleChan ng)
    /\ is_uint16 out
    /\ (zr = true <-> out = 0)
    /\ ng = Z.testbit out 15
    /\ (ng = true <-> signed16 out < 0).
Proof.
  apply (ALU_Update_flags NewALU 7 7 false true false false true true);
    unfold is_uint16; lia.
Defined.

(** C4. Addition wraps modulo 2^16 and the three results carry no overflow
    indication: x = 0x7FFF, y = 0x0001 with the flags of x+y give the
    output 0x8000 with zr false and ng true. *)
Theorem ALU_add_wraps (alu : ALU) :
  (ALU_Update alu (inputs 32767 1 false false false false true false)).2
  = Ok (SixteenChan 32768, SingleChan false, SingleChan true)
  /\ signed16 32768 = -32768.
Proof. split; vm_compute; reflexivity. Qed.

End ALUClaims.

(** * The receive loop of the Register *)

Section Gather.

Import components sequential_bit word.

Lemma gather_fold n : forall rs acc,
  length rs = n -> gather n rs acc = Some (fold_left collect rs acc).
Proof.
  induction n as [|n IH]; intros [|d rs] acc Hlen; try discriminate.
  - reflexivity.
  - cbn [gather fold_left]. apply IH. now injection Hlen.
Qed.

Lemma gather_short n : forall rs acc,
  (length rs < n)%nat -> gather n rs acc = None.
Proof.
  induction n as [|n IH]; intros [|d rs] acc Hlen; cbn [length] in Hlen;
    try lia; [reflexivity|].
  cbn [gather]. apply IH. lia.
Qed.

Lemma lor_range a b : is_uint16 a -> is_uint16 b -> is_uint16 (Z.lor a b).
Proof.
  intros Ha Hb. rewrite <- (uint16_small a Ha), <- (uint16_small b Hb).
  replace (Z.lor (uint16 a) (uint16 b)) with (uint16 (Z.lor a b)).
  - apply uint16_range.
  - apply Z.bits_inj'. intros n Hn.
    rewrite Z.lor_spec, !uint16_testbit, Z.lor_spec.
    now destruct (n <? 16).
Qed.

Lemma collect_range acc d : is_uint16 acc -> is_uint16 (collect acc d).
Proof.
  intros Hacc. unfold collect. destruct (Val_ d); [|assumption].
  apply lor_range; [assumption | apply uint16_range].
Qed.

Lemma fold_collect_range rs : forall acc,
  is_uint16 acc -> is_uint16 (fold_left collect rs acc).
Proof.
  induction rs as [|d rs IH]; intros acc Hacc; cbn [fold_left];
    auto using collect_range.
Qed.

Lemma collect_comm acc d1 d2 :
  collect (collect acc d1) d2 = collect (collect acc d2) d1.
Proof.
  unfold collect. destruct (Val_ d1), (Val_ d2); try reflexivity.
  rewrite <- !Z.lor_assoc. f_equal. apply Z.lor_comm.
Qed.

Lemma fold_collect_perm rs rs' :
  rs ≡ₚ rs' ->
  forall acc, fold_left collect rs acc = fold_left collect rs' acc.
Proof.
  induction 1 as [|d rs rs' _ IH|d1 d2 rs|rs1 rs2 rs3 _ IH1 _ IH2];
    intros acc; cbn [fold_left].
  - reflexivity.
  - apply IH.
  - now rewrite collect_comm.
  - now rewrite IH1.
Qed.

Lemma collect_testbit acc d j :
  0 <= j ->
  Z.testbit (collect acc d) j = Z.testbit acc j || hits j d.
Proof.
  intros Hj. unfold collect, hits. destruct (Val_ d); cbn [andb].
  - rewrite Z.lor_spec, uint16_testbit, Z.shiftl_1_l. f_equal. f_equal.
    apply Z.pow2_bits_eqb. unfold uint16. apply Z.mod_pos_bound. lia.
  - now rewrite orb_false_r.
Qed.

Lemma fold_collect_testbit rs j : forall acc,
  0 <= j ->
  Z.testbit (fold_left collect rs acc) j
  = Z.testbit acc j || existsb (hits j) rs.
Proof.
  induction rs as [|d rs IH]; intros acc Hj; cbn [fold_left existsb].
  - now rewrite orb_false_r.
  - rewrite IH, collect_testbit by assumption. now rewrite orb_assoc.
Qed.

Lemma same_index_same_reply (rs : list OrderedVal) :
  NoDup (map Idx rs) ->
  forall d d', In d rs -> In d' rs -> Idx d = Idx d' -> d = d'.
Proof.
  induction rs as [|r rs IH]; intros Hnd d d' Hd Hd' Heq; [destruct Hd|].
  cbn [map] in Hnd. apply NoDup_cons in Hnd as [Hnot Hnd].
  destruct Hd as [<- | Hd], Hd' as [<- | Hd']; try reflexivity.
  - exfalso. apply Hnot. rewrite Heq. apply list_elem_of_In.
    now apply in_map.
  - exfalso. apply Hnot. rewrite <- Heq. apply list_elem_of_In.
    now apply in_map.
  - now apply IH.
Qed.

End Gather.

(** * The Register: order of replies, persistence, frame *)

Section RegisterClaims.

Import components sequential_bit word.

Lemma lanes_NoDup : NoDup (map Z.of_nat (seq 0 16)).
Proof. apply (bool_decide_unpack _). vm_compute. reflexivity. Qed.

Lemma lane_index (rs : list OrderedVal) d :
  map Idx rs ≡ₚ map Z.of_nat (seq 0 16) -> In d rs -> 0 <= Idx d < 16.
Proof.
  intros Hperm Hd.
  assert (Hin : In (Idx d) (map Z.of_nat (seq 0 16))).
  { apply (Permutation_in _ Hperm). now apply in_map. }
  apply in_map_iff in Hin as (i & <- & Hi%in_seq). lia.
Qed.

(** C6. The word rebuilt from the sixteen lane replies does not depend on
    the order in which the replies arrive: for sixteen replies that carry
    the indices 0 to 15 once each, every permutation of the arrival order
    gives the same word, and bit idx of the word is the value carried by
    the reply tagged idx. *)
Theorem gather_order_independent (rs rs' : list OrderedVal) :
  map Idx rs ≡ₚ map Z.of_nat (seq 0 16) -> rs' ≡ₚ rs ->
  exists w : Z,
    gather 16 rs 0 = Some w
    /\ gather 16 rs' 0 = Some w
    /\ is_uint16 w
    /\ forall d, In d rs -> Z.testbit w (Idx d) = Val_ d.
Proof.
  intros Hidx Hperm.
  assert (Hlen : length rs = 16%nat).
  { apply Permutation_length in Hidx. now rewrite !length_map in Hidx. }
  assert (Hlen' : length rs' = 16%nat).
  { now rewrite (Permutation_length Hperm). }
  assert (Hnd : NoDup (map Idx rs)).
  { rewrite Hidx. apply lanes_NoDup. }
  exists (fold_left collect rs 0).
  split; [now apply gather_fold|].
  split; [rewrite gather_fold by assumption; f_equal;
          now apply fold_collect_perm|].
  split; [apply fold_collect_range, zero_range|].
  intros d Hd. pose proof (lane_index rs d Hidx Hd) as Hrange.
  rewrite fold_collect_testbit by lia. rewrite Z.testbit_0_l. cbn [orb].
  destruct (Val_ d) eqn:Hval.
  - apply existsb_exists. exists d. split; [assumption|].
    unfold hits. rewrite Hval. cbn [andb].
    apply andb_true_iff. split; [apply Z.ltb_lt; lia|].
    apply Z.eqb_eq. apply uint16_small. unfold is_uint16. lia.
  - apply not_true_is_false. intros (d' & Hd' & Hhit)%existsb_exists.
    unfold hits in Hhit.
    apply andb_true_iff in Hhit as [Hval' Hhit].
    apply andb_true_iff in Hhit as [_ Hhit%Z.eqb_eq].
    pose proof (lane_index rs d' Hidx Hd') as Hrange'.
    rewrite uint16_small in Hhit by (unfold is_uint16; lia).
    assert (d' = d) by now apply (same_index_same_reply rs Hnd).
    congruence.
Qed.

Lemma gather_order_independent_witness :
  exists w : Z,
    gather 16
      (map (fun i : nat => mkOrderedVal (Nat.even i) (Z.of_nat i))
           (seq 0 16)) 0 = Some w
    /\ gather 16
      (map (fun i : nat => mkOrderedVal (Nat.even i) (Z.of_nat i))
           (rev (seq 0 16))) 0 = Some w
    /\ is_uint16 w
    /\ forall d,
         In d (map (fun i : nat => mkOrderedVal (Nat.even i) (Z.of_nat i))
                   (seq 0 16)) ->
         Z.testbit w (Idx d) = Val_ d.
Proof.
  apply gather_order_independent.
  - reflexivity.
  - apply Permutation_map. symmetry. apply Permutation_rev.
Defined.

Lemma sent_replies reg in_ load (sched : list nat) :
  (forall i, In i sched -> (i < length (bits reg))%nat) ->
  sched ≫= (fun i => from_option (fun r => r.2) []
                       (imap (lane reg in_ load) (bits reg) !! i))
  = (fun i => Send (c reg) (reply (bits reg) i)) <$> sched.
Proof.
  induction sched as [|i sched IH]; intros Hlt; [reflexivity|].
  rewrite bind_cons, fmap_cons, IH by (intros; apply Hlt; now right).
  destruct (lookup_lt_is_Some_2 (bits reg) i) as [b Hb];
    [apply Hlt; now left|].
  unfold reply. rewrite list_lookup_imap, Hb. reflexivity.
Qed.

Lemma inbox_replies ch (g : nat -> OrderedVal) (sched : list nat) :
  inbox ch ((fun i => Send ch (g i)) <$> sched) = g <$> sched.
Proof.
  induction sched as [|i sched IH]; [reflexivity|].
  rewrite !fmap_cons. unfold inbox in *. cbn [omap list_omap].
  rewrite Nat.eqb_refl. now rewrite IH.
Qed.

Lemma of_lanes_testbit l : forall k : nat,
  Z.testbit (of_lanes l) (Z.of_nat k) = nth k l false.
Proof.
  induction l as [|b l IH]; intros k.
  - cbn [of_lanes]. rewrite Z.testbit_0_l. now destruct k.
  - cbn [of_lanes]. rewrite Z.add_comm. destruct k as [|k].
    + apply Z.testbit_0_r.
    + rewrite Nat2Z.inj_succ, Z.testbit_succ_r by lia. apply IH.
Qed.

Lemma lane_small (i : nat) : (i < 16)%nat -> uint16 (Z.of_nat i) = Z.of_nat i.
Proof. intros Hi. apply uint16_small. unfold is_uint16. lia. Qed.

Lemma gather_replies bs (sched : list nat) :
  length bs = 16%nat -> schedule sched ->
  gather 16 (reply bs <$> sched) 0 = Some (of_lanes (current <$> bs)).
Proof.
  intros Hlen Hsched. unfold schedule in Hsched.
  rewrite gather_fold
    by (rewrite length_fmap, (Permutation_length Hsched); apply length_seq).
  f_equal. apply Z.bits_inj'. intros j Hj.
  assert (Hr : is_uint16 (of_lanes (current <$> bs))).
  { pose proof (of_lanes_range (current <$> bs)) as H.
    rewrite length_fmap, Hlen in H. exact H. }
  rewrite fold_collect_testbit, Z.testbit_0_l by assumption. cbn [orb].
  rewrite <- (uint16_small _ Hr), uint16_testbit.
  apply eq_iff_eq_true. rewrite existsb_exists, andb_true_iff, Z.ltb_lt.
  split.
  - intros (d & Hd & Hhit).
    apply list_elem_of_In, list_elem_of_fmap in Hd as (i & -> & Hi).
    rewrite Hsched in Hi. apply elem_of_seq in Hi.
    unfold hits, reply in Hhit. cbn [Val_ Idx] in Hhit.
    apply andb_true_iff in Hhit as [Hcur Hhit].
    apply andb_true_iff in Hhit as [_ Hhit%Z.eqb_eq].
    rewrite lane_small in Hhit by lia. subst j. split; [lia|].
    rewrite of_lanes_testbit, nth_lookup, list_lookup_fmap. exact Hcur.
  - intros [Hlt Hbit]. exists (reply bs (Z.to_nat j)). split.
    + apply list_elem_of_In, list_elem_of_fmap. exists (Z.to_nat j).
      split; [reflexivity|]. rewrite Hsched. apply elem_of_seq. lia.
    + unfold hits, reply. cbn [Val_ Idx].
      rewrite <- (Z2Nat.id j Hj), of_lanes_testbit, nth_lookup,
        list_lookup_fmap in Hbit.
      rewrite Hbit. cbn [andb]. apply andb_true_iff.
      split; [apply Z.ltb_lt; lia|]. apply Z.eqb_eq.
      rewrite lane_small by lia. lia.
Qed.

(** What a call returns on a well-formed register under any schedule. *)
Lemma Register_Update_returns sched reg in_ load ch idx :
  wf reg -> schedule sched ->
  Register_Update sched reg in_ load ch idx
  = Some (mkRegister (imap (staged in_ load) (bits reg)) (c reg),
          of_lanes (current <$> bits reg),
          ((fun i => Send (c reg) (reply (bits reg) i)) <$> sched)
          ++ send16 ch (mkOrderedVal16 (of_lanes (current <$> bits reg)) idx)).
Proof.
  intros Hwf Hsched. unfold Register_Update. cbv zeta.
  rewrite sent_replies.
  - rewrite inbox_replies, gather_replies by assumption.
    cbn [mbind option_bind]. rewrite fmap_imap. reflexivity.
  - intros i Hi%list_elem_of_In. unfold schedule in Hsched.
    rewrite Hsched in Hi. apply elem_of_seq in Hi.
    unfold wf in Hwf. lia.
Qed.

(** X12. Two arrival orders give the same register and the same word; only
    the order of the replies in the trace differs. *)
Lemma Register_Update_schedule_independent sched1 sched2 reg in_ load ch idx :
  wf reg -> schedule sched1 -> schedule sched2 ->
  exists reg' out tr1 tr2,
    Register_Update sched1 reg in_ load ch idx = Some (reg', out, tr1)
    /\ Register_Update sched2 reg in_ load ch idx = Some (reg', out, tr2)
    /\ tr1 ≡ₚ tr2.
Proof.
  intros Hwf Hs1 Hs2. eexists _, _, _, _.
  split; [now apply Register_Update_returns|].
  split; [now apply Register_Update_returns|].
  unfold schedule in *. now rewrite Hs1, Hs2.
Qed.

(** When fewer than sixteen replies arrive the call does not return. *)
Lemma Register_Update_missing_reply sched reg in_ load ch idx :
  wf reg -> (length sched < 16)%nat ->
  (forall i, In i sched -> (i < 16)%nat) ->
  Register_Update sched reg in_ load ch idx = None.
Proof.
  intros Hwf Hlen Hlt. unfold Register_Update. cbv zeta.
  rewrite sent_replies by (intros i Hi; rewrite Hwf; now apply Hlt).
  rewrite inbox_replies, gather_short; [reflexivity|].
  now rewrite length_fmap.
Qed.

Lemma current_staged in_ load bs :
  current <$> imap (staged in_ load) bs = current <$> bs.
Proof.
  apply list_eq. intros i.
  rewrite !list_lookup_fmap, list_lookup_imap.
  now destruct (bs !! i).
Qed.

Lemma ticked_lanes w bs :
  length bs = 16%nat ->
  current <$> (Bit_Tick <$> imap (staged w true) bs) = to_lanes w.
Proof.
  intros Hlen. apply list_eq. intros i. unfold to_lanes.
  change (map ?g ?l) with (g <$> l).
  rewrite !list_lookup_fmap, list_lookup_imap.
  destruct (decide (i < 16)%nat) as [Hi|Hi].
  - rewrite lookup_seq_lt by assumption.
    destruct (lookup_lt_is_Some_2 bs i) as [b Hb]; [lia|].
    rewrite Hb. cbn. unfold util.GetBoolFromUint16.
    now rewrite lane_small.
  - rewrite lookup_seq_ge, (lookup_ge_None_2 bs) by lia. reflexivity.
Qed.

Lemma of_lanes_to_lanes w : is_uint16 w -> of_lanes (to_lanes w) = w.
Proof.
  intros Hw. rewrite (to_lanes_upto w), of_lanes_upto, <- uint16_pow.
  now apply uint16_small.
Qed.

(** C7. Persistence: for every 16-bit word w, [Update(w, true)], then
    [Tick()], then [Update(anything, false)] returns w from the last
    call, whatever the arrival orders of the replies. *)
Theorem Register_persistence (reg : Register) (w w' : Z)
    (sched1 sched2 : list nat) (ch1 ch2 : option chan) (idx1 idx2 : Z) :
  wf reg -> is_uint16 w -> schedule sched1 -> schedule sched2 ->
  exists reg1 out1 tr1 reg2 tr2,
    Register_Update sched1 reg w true ch1 idx1 = Some (reg1, out1, tr1)
    /\ Register_Update sched2 (Register_Tick reg1) w' false ch2 idx2
       = Some (reg2, w, tr2).
Proof.
  intros Hwf Hw Hs1 Hs2.
  eexists _, _, _, _, _. split.
  - now apply Register_Update_returns.
  - rewrite Register_Update_returns; [|unfold wf in *|assumption].
    + cbn [Register_Tick bits c]. rewrite ticked_lanes by exact Hwf.
      rewrite of_lanes_to_lanes by assumption. reflexivity.
    + cbn [Register_Tick bits]. now rewrite length_fmap, length_imap.
Qed.

(** C9. [Update] reads and never changes committed state: on every
    register, input word and load flag, under every schedule, the call
    returns, every Bit keeps its current value, and the returned word is
    the composition of the sixteen current values: bit i of the word is
    the current value of Bit i. *)
Theorem Register_Update_frame (sched : list nat) (reg : Register)
    (in_ : Z) (load : bool) (ch : option chan) (idx : Z) :
  wf reg -> schedule sched ->
  exists reg' out tr,
    Register_Update sched reg in_ load ch idx = Some (reg', out, tr)
    /\ current <$> bits reg' = current <$> bits reg
    /\ out = of_lanes (current <$> bits reg)
    /\ is_uint16 out
    /\ forall (i : nat) (bit : Bit),
         bits reg !! i = Some bit ->
         Z.testbit out (Z.of_nat i) = current bit.
Proof.
  intros Hwf Hsched. eexists _, _, _.
  split; [now apply Register_Update_returns|].
  split; [apply current_staged|]. split; [reflexivity|]. split.
  - pose proof (of_lanes_range (current <$> bits reg)) as H.
    rewrite length_fmap, Hwf in H. exact H.
  - intros i bit Hbit.
    rewrite of_lanes_testbit, nth_lookup, list_lookup_fmap, Hbit.
    reflexivity.
Qed.

End RegisterClaims.

(** * The 1-bit multiplexer *)

Section MuxClaims.

Import components combinational_bit.

(** C5. The 1-bit multiplexer returns OR(AND(a, NOT(sel)), AND(sel, b));
    with sel false it returns a and with sel true it returns b. *)
Theorem Mux_Update_value (a b sel : bool) (c : option chan) (idx : Z) :
  (Mux_Update a b sel c idx).1 = OR (AND a (NOT sel)) (AND sel b)
  /\ (Mux_Update a b false c idx).1 = a
  /\ (Mux_Update a b true c idx).1 = b.
Proof.
  split; [reflexivity|].
  split; destruct a, b; reflexivity.
Qed.

End MuxClaims.

(** * Options with a target the ALU has no case for *)

Section TargetClaims.

Import components alu_doc.

(** C8, as stated, fails: an option whose target is none of the ALU's eight
    is not rejected; the call returns its three results. *)
Lemma ALU_Update_foreign_target_not_rejected :
  ~ (forall (alu : ALU) (opts : list UpdateOpts) (opt : UpdateOpts),
       In opt opts -> ALU_accepts (target opt) = false ->
       exists e, (ALU_Update alu opts).2 = Err e).
Proof.
  intros H.
  destruct (H NewALU
              (inputs 12 10 false true false true false true
               ++ [mkOpts TargetA (SingleChan true)])
              (mkOpts TargetA (SingleChan true))) as [e He].
  - apply in_or_app. right. now left.
  - reflexivity.
  - vm_compute in He. discriminate He.
Qed.

Lemma ALU_set_foreign alu opt :
  ALU_accepts (target opt) = false -> ALU_set alu opt = alu.
Proof.
  unfold ALU_set. destruct (target opt); intros H;
    try discriminate H; reflexivity.
Qed.

(** C8, amended. [ALU.Update] stores the options whose target is one of
    its eight names; an option with any other target is ignored: the call
    leaves the same stored inputs and returns the same three results as
    the call without that option. *)
Theorem ALU_Update_ignores_foreign_target (alu : ALU)
    (before after : list UpdateOpts) (opt : UpdateOpts) :
  ALU_accepts (target opt) = false ->
  ALU_Update alu (before ++ opt :: after) = ALU_Update alu (before ++ after).
Proof.
  intros Hopt. unfold ALU_Update.
  rewrite !fold_left_app. cbn [fold_left].
  now rewrite ALU_set_foreign.
Qed.

Lemma ALU_Update_ignores_foreign_target_witness :
  ALU_Update NewALU
    (inputs 12 10 false true false true false true
     ++ mkOpts TargetA (SingleChan true) :: [])
  = ALU_Update NewALU
      (inputs 12 10 false true false true false true ++ []).
Proof.
  apply (ALU_Update_ignores_foreign_target NewALU
           (inputs 12 10 false true false true false true) []
           (mkOpts TargetA (SingleChan true))).
  reflexivity.
Defined.

End TargetClaims.

(** * Reply channels *)

Section ChannelClaims.

Import components combinational_bit sequential_bit word.

(** C10. The reply channel of [Mux.Update] and of [Register.Update]: with
    a nil channel nothing is sent on it and the value is still returned;
    with a channel, one message is sent on it, carrying the returned value
    and the caller's idx. *)
Theorem reply_channel_protocol (a b sel : bool) (sched : list nat)
    (reg : Register) (in_ : Z) (load : bool) (ch : chan) (idx : Z) :
  wf reg -> schedule sched ->
  (exists v : bool,
     Mux_Update a b sel None idx = (v, [])
     /\ Mux_Update a b sel (Some ch) idx
        = (v, [Send ch (mkOrderedVal v idx)]))
  /\
  (exists reg' out tr tr',
     Register_Update sched reg in_ load None idx = Some (reg', out, tr)
     /\ outbox16 tr = []
     /\ Register_Update sched reg in_ load (Some ch) idx
        = Some (reg', out, tr')
     /\ outbox16 tr' = [(ch, mkOrderedVal16 out idx)]).
Proof.
  intros Hwf Hsched. split.
  - eexists. split; reflexivity.
  - eexists _, _, _, _.
    split; [now apply Register_Update_returns|].
    assert (Hint : forall l : list nat,
              outbox16 ((fun i => Send (c reg) (reply (bits reg) i)) <$> l)
              = []).
    { induction l as [|i l IH]; [reflexivity | exact IH]. }
    split; [|split; [now apply Register_Update_returns|]].
    + unfold outbox16 in *. rewrite omap_app, Hint. reflexivity.
    + unfold outbox16 in *. rewrite omap_app, Hint. reflexivity.
Qed.

Lemma reply_channel_protocol_witness :
  (exists v : bool,
     Mux_Update true false true None 3 = (v, [])
     /\ Mux_Update true false true (Some 4%nat) 3
        = (v, [Send 4%nat (mkOrderedVal v 3)]))
  /\
  (exists reg' out tr tr',
     Register_Update (rev (seq 0 16))
       (mkRegister (replicate 16 (mkBit true false)) 1%nat) 5 true None 3
     = Some (reg', out, tr)
     /\ outbox16 tr = []
     /\ Register_Update (rev (seq 0 16))
          (mkRegister (replicate 16 (mkBit true false)) 1%nat) 5 true
          (Some 4%nat) 3
        = Some (reg', out, tr')
     /\ outbox16 tr' = [(4%nat, mkOrderedVal16 out 3)]).
Proof.
  apply reply_channel_protocol.
  - reflexivity.
  - unfold schedule. symmetry. apply Permutation_rev.
Defined.

Lemma Register_persistence_witness :
  exists reg1 out1 tr1 reg2 tr2,
    Register_Update (seq 0 16)
      (mkRegister (replicate 16 (mkBit false true)) 1%nat)
      43981 true None 0 = Some (reg1, out1, tr1)
    /\ Register_Update (rev (seq 0 16)) (Register_Tick reg1) 7 false
         (Some 2%nat) 1
       = Some (reg2, 43981, tr2).
Proof.
  apply Register_persistence.
  - reflexivity.
  - unfold is_uint16. lia.
  - unfold schedule. reflexivity.
  - unfold schedule. symmetry. apply Permutation_rev.
Defined.

Lemma Register_Update_frame_witness :
  exists reg' out tr,
    Register_Update (rev (seq 0 16))
      (mkRegister (replicate 16 (mkBit true false)) 1%nat) 0 true None 0
    = Some (reg', out, tr)
    /\ current <$> bits reg' = replicate 16 true
    /\ out = of_lanes (replicate 16 true)
    /\ is_uint16 out
    /\ forall (i : nat) (bit : Bit),
         replicate 16 (mkBit true false) !! i = Some bit ->
         Z.testbit out (Z.of_nat i) = current bit.
Proof.
  apply (Register_Update_frame (rev (seq 0 16))
           (mkRegister (replicate 16 (mkBit true false)) 1%nat)
           0 true None 0).
  - reflexivity.
  - unfold schedule. symmetry. apply Permutation_rev.
Defined.

End ChannelClaims.

(** * The option loop of the ALU *)

Section OptionLoop.

Import components alu_doc alu_opts.

Lemma Target_beq_eq t t' : Target_beq t t' = true <-> t = t'.
Proof.
  split; [apply internal_Target_dec_bl | apply internal_Target_dec_lb].
Qed.

Lemma last_named_snoc t opts opt :
  last_named t (opts ++ [opt])
  = if Target_beq (target opt) t then Some opt else last_named t opts.
Proof. unfold last_named. now rewrite rev_unit. Qed.

Lemma fold_ALU_set_fields opts : forall alu,
  fold_left ALU_set opts alu
  = mkALU (stored_after TargetX opts (x alu))
          (stored_after TargetY opts (y alu))
          (stored_after TargetZeroX opts (zx alu))
          (stored_after TargetNegX opts (nx alu))
          (stored_after TargetZeroY opts (zy alu))
          (stored_after TargetNegY opts (ny alu))
          (stored_after TargetFunc opts (f alu))
          (stored_after TargetNegOut opts (no alu)).
Proof.
  induction opts as [|opt opts IH] using rev_ind; intros alu.
  - now destruct alu.
  - rewrite fold_left_app. cbn [fold_left]. rewrite IH.
    unfold stored_after. rewrite !last_named_snoc.
    unfold ALU_set. destruct (target opt); reflexivity.
Qed.

(** X1. After the option loop each of the eight stored inputs holds the
    value of the last option that names its target, and its former value
    when no option names it. *)
Theorem ALU_Update_stores_last (alu : ALU) (opts : list UpdateOpts) :
  (ALU_Update alu opts).1
  = mkALU (stored_after TargetX opts (x alu))
          (stored_after TargetY opts (y alu))
          (stored_after TargetZeroX opts (zx alu))
          (stored_after TargetNegX opts (nx alu))
          (stored_after TargetZeroY opts (zy alu))
          (stored_after TargetNegY opts (ny alu))
          (stored_after TargetFunc opts (f alu))
          (stored_after TargetNegOut opts (no alu)).
Proof. apply fold_ALU_set_fields. Qed.


Lemma map_inj_on {A B : Type} (g : A -> B) (l : list A) :
  NoDup (map g l) ->
  forall a b, In a l -> In b l -> g a = g b -> a = b.
Proof.
  induction l as [|r l IH]; intros Hnd a b Ha Hb Heq; [destruct Ha|].
  cbn [map] in Hnd. apply NoDup_cons in Hnd as [Hnot Hnd].
  destruct Ha as [<- | Ha], Hb as [<- | Hb]; try reflexivity.
  - exfalso. apply Hnot. rewrite Heq. apply list_elem_of_In. now apply in_map.
  - exfalso. apply Hnot. rewrite <- Heq. apply list_elem_of_In.
    now apply in_map.
  - now apply IH.
Qed.

Lemma last_named_unique opts opt :
  NoDup (map target opts) -> In opt opts ->
  last_named (target opt) opts = Some opt.
Proof.
  intros Hnd Hin. unfold last_named.
  destruct (find _ (rev opts)) as [opt'|] eqn:Hfind.
  - apply find_some in Hfind as [Hin' Heq%Target_beq_eq].
    apply in_rev in Hin'. f_equal. now apply (map_inj_on target opts Hnd).
  - apply in_rev in Hin. apply (find_none _ _ Hfind opt) in Hin.
    assert (Target_beq (target opt) (target opt) = true)
      by now apply Target_beq_eq.
    congruence.
Qed.

Lemma last_named_absent t opts :
  (forall opt, In opt opts -> target opt <> t) -> last_named t opts = None.
Proof.
  intros Hno. unfold last_named.
  destruct (find _ (rev opts)) as [opt|] eqn:Hfind; [|reflexivity].
  apply find_some in Hfind as [Hin Heq%Target_beq_eq].
  apply in_rev in Hin. now apply Hno in Hin.
Qed.

Lemma last_named_perm t opts opts' :
  opts ≡ₚ opts' -> NoDup (map target opts) ->
  last_named t opts = last_named t opts'.
Proof.
  intros Hperm Hnd.
  assert (Hnd' : NoDup (map target opts')).
  { now rewrite <- (Permutation_map target Hperm). }
  destruct (find (fun opt => Target_beq (target opt) t) opts) as [opt|]
    eqn:Hfind.
  - apply find_some in Hfind as [Hin <-%Target_beq_eq].
    rewrite !last_named_unique; auto.
    now apply (Permutation_in _ Hperm).
  - rewrite !last_named_absent; auto.
    + intros opt Hin Heq. symmetry in Hperm.
      apply (Permutation_in _ Hperm) in Hin.
      apply (find_none _ _ Hfind) in Hin.
      apply Target_beq_eq in Heq. congruence.
    + intros opt Hin Heq. apply (find_none _ _ Hfind) in Hin.
      apply Target_beq_eq in Heq. congruence.
Qed.

(** X3. When no target is named twice, the order of the options does not
    matter: every permutation of the option list leaves the same stored
    inputs and returns the same results. *)
Theorem ALU_Update_option_order (alu : ALU) (opts opts' : list UpdateOpts) :
  opts ≡ₚ opts' -> NoDup (map target opts) ->
  ALU_Update alu opts = ALU_Update alu opts'.
Proof.
  intros Hperm Hnd. unfold ALU_Update.
  rewrite !fold_ALU_set_fields. unfold stored_after.
  now rewrite !(last_named_perm _ opts opts') by assumption.
Qed.

Lemma ALU_Update_option_order_witness :
  ALU_Update NewALU (inputs 12 10 false true false true false true)
  = ALU_Update NewALU (rev (inputs 12 10 false true false true false true)).
Proof.
  apply ALU_Update_option_order.
  - apply Permutation_rev.
  - apply (bool_decide_unpack _). vm_compute. reflexivity.
Defined.

End OptionLoop.

(** * The ALU pipeline: symmetry, masking, output negation *)

Section PipelineFacts.

Import components alu_doc.

Lemma four_stage_swap vx vy fzx fnx fzy fny ff fno :
  four_stage vx vy fzx fnx fzy fny ff fno
  = four_stage vy vx fzy fny fzx fnx ff fno.
Proof.
  unfold four_stage, ADD16, AND16. cbv zeta.
  now rewrite Z.add_comm, Z.land_comm.
Qed.

(** X4. The two data paths are symmetric: swapping x with y together with
    zx with zy and nx with ny leaves the three results unchanged. *)
Theorem ALU_Update_swap (alu alu' : ALU) (vx vy : Z)
    (fzx fnx fzy fny ff fno : bool) :
  is_uint16 vx -> is_uint16 vy ->
  (ALU_Update alu (inputs vx vy fzx fnx fzy fny ff fno)).2
  = (ALU_Update alu' (inputs vy vx fzy fny fzx fnx ff fno)).2.
Proof.
  intros Hx Hy. rewrite !ALU_Update_inputs by assumption. cbv zeta.
  now rewrite (four_stage_swap vx vy).
Qed.

Lemma ALU_Update_swap_witness :
  (ALU_Update NewALU (inputs 9 4 false true false false true true)).2
  = (ALU_Update NewALU (inputs 4 9 false false false true true true)).2.
Proof.
  apply ALU_Update_swap; unfold is_uint16; lia.
Defined.

(** X5. The two flags exclude each other: no call on 16-bit inputs returns
    both zr and ng true. *)
Theorem ALU_Update_never_zero_and_negative (alu : ALU) (vx vy : Z)
    (fzx fnx fzy fny ff fno : bool) (out : Val) :
  is_uint16 vx -> is_uint16 vy ->
  (ALU_Update alu (inputs vx vy fzx fnx fzy fny ff fno)).2
  <> Ok (out, SingleChan true, SingleChan true).
Proof.
  intros Hx Hy. rewrite ALU_Update_inputs by assumption. cbv zeta.
  intros H. injection H as _ Hzr Hng.
  apply gate_zr_spec in Hzr; [|now apply four_stage_range].
  rewrite Hzr in Hng. discriminate Hng.
Qed.

Lemma ALU_Update_never_zero_and_negative_witness :
  (ALU_Update NewALU (inputs 7 7 false true false false true true)).2
  <> Ok (SixteenChan 0, SingleChan true, SingleChan true).
Proof.
  apply ALU_Update_never_zero_and_negative; unfold is_uint16; lia.
Defined.

(** X6. The flag no complements the output: the output word with no set
    and the output word with no clear, on the same inputs and other flags,
    add up to 0xFFFF. *)
Theorem ALU_Update_output_negation (alu alu' : ALU) (vx vy : Z)
    (fzx fnx fzy fny ff : bool) :
  is_uint16 vx -> is_uint16 vy ->
  exists out out' : Z,
    output (ALU_Update alu (inputs vx vy fzx fnx fzy fny ff false)).2
    = Ok (SixteenChan out)
    /\ output (ALU_Update alu' (inputs vx vy fzx fnx fzy fny ff true)).2
       = Ok (SixteenChan out')
    /\ out + out' = 65535.
Proof.
  intros Hx Hy. eexists _, _.
  rewrite !ALU_Update_inputs by assumption. cbv zeta. cbn [output].
  split; [reflexivity|]. split; [reflexivity|].
  pose proof (four_stage_range vx vy fzx fnx fzy fny ff false Hx Hy) as Hr.
  change (four_stage vx vy fzx fnx fzy fny ff true)
    with (NOT16 (four_stage vx vy fzx fnx fzy fny ff false)).
  rewrite (NOT16_small _ Hr). lia.
Qed.

Lemma ALU_Update_output_negation_witness :
  exists out out' : Z,
    output (ALU_Update NewALU (inputs 12 10 false false false false false false)).2
    = Ok (SixteenChan out)
    /\ output (ALU_Update NewALU (inputs 12 10 false false false false false true)).2
       = Ok (SixteenChan out')
    /\ out + out' = 65535.
Proof.
  apply ALU_Update_output_negation; unfold is_uint16; lia.
Defined.

(** X7. Zeroing masks the input: with zx set the three results do not
    depend on x, and with zy set they do not depend on y. *)
Theorem ALU_Update_zero_masks_input (alu alu' : ALU) (vx vx' vy vy' : Z)
    (fzx fnx fzy fny ff fno : bool) :
  is_uint16 vx -> is_uint16 vx' -> is_uint16 vy -> is_uint16 vy' ->
  (ALU_Update alu (inputs vx vy true fnx fzy fny ff fno)).2
  = (ALU_Update alu' (inputs vx' vy true fnx fzy fny ff fno)).2
  /\ (ALU_Update alu (inputs vx vy fzx fnx true fny ff fno)).2
     = (ALU_Update alu' (inputs vx vy' fzx fnx true fny ff fno)).2.
Proof.
  intros Hx Hx' Hy Hy'. rewrite !ALU_Update_inputs by assumption.
  split; reflexivity.
Qed.

Lemma ALU_Update_zero_masks_input_witness :
  (ALU_Update NewALU (inputs 1 2 true true false false true false)).2
  = (ALU_Update NewALU (inputs 3 2 true true false false true false)).2
  /\ (ALU_Update NewALU (inputs 1 2 false true true false true false)).2
     = (ALU_Update NewALU (inputs 1 4 false true true false true false)).2.
Proof.
  apply ALU_Update_zero_masks_input; unfold is_uint16; lia.
Defined.

End PipelineFacts.

(** * The 1-bit multiplexer: equal inputs and swapped inputs *)

Section MuxFacts.

Import components combinational_bit.

(** X8. With equal data inputs the multiplexer returns that input whatever
    sel is, and swapping the data inputs while complementing sel leaves the
    value unchanged; neither the channel nor the index affects the value. *)
Theorem Mux_Update_equal_and_swapped (a b sel : bool) (c c' : option chan)
    (idx idx' : Z) :
  (Mux_Update a a sel c idx).1 = a
  /\ (Mux_Update a b sel c idx).1 = (Mux_Update b a (negb sel) c' idx').1.
Proof. split; destruct a, b, sel; reflexivity. Qed.

End MuxFacts.

(** * The receive loop on arbitrary replies *)

Section GatherFacts.

Import components sequential_bit word.

(** X9. The receive loop returns exactly when enough replies arrive, and it
    reads no more than it counts: with fewer than n replies there is no
    result, and replies after the n-th do not change the result. *)
Theorem gather_reads_n (n : nat) (rs : list OrderedVal) (acc : Z) :
  (gather n rs acc = None <-> (length rs < n)%nat)
  /\ gather n rs acc = gather n (take n rs) acc.
Proof.
  revert rs acc. induction n as [|n IH]; intros rs acc.
  - cbn [gather]. split; [|reflexivity]. split; [discriminate | lia].
  - destruct rs as [|d rs]; cbn [gather take length].
    + split; [|reflexivity]. split; [lia | reflexivity].
    + destruct (IH rs (collect acc d)) as [Hnone Htake].
      split; [|exact Htake]. rewrite Hnone. lia.
Qed.

Lemma shift_out_of_word k : 16 <= k -> uint16 (Z.shiftl 1 k) = 0.
Proof.
  intros Hk. apply Z.bits_inj'. intros n Hn.
  rewrite uint16_testbit, Z.shiftl_1_l, Z.pow2_bits_eqb, Z.testbit_0_l by lia.
  destruct (Z.ltb_spec n 16); [|reflexivity].
  cbn [andb]. apply Z.eqb_neq. lia.
Qed.

(** X10. A reply whose index, converted to uint16, is 16 or more leaves the
    word as it is, whatever its value: the shifted bit falls out of the
    16-bit word. *)
Theorem collect_index_out_of_word (outVal : Z) (d1 : OrderedVal) :
  16 <= uint16 (Idx d1) -> collect outVal d1 = outVal.
Proof.
  intros Hidx. unfold collect. destruct (Val_ d1); [|reflexivity].
  rewrite shift_out_of_word by assumption. apply Z.lor_0_r.
Qed.

Lemma collect_index_out_of_word_witness :
  collect 5 (mkOrderedVal true 16) = 5
  /\ collect 5 (mkOrderedVal true (-1)) = 5.
Proof.
  split; apply collect_index_out_of_word; vm_compute; discriminate.
Defined.

(** X11. For any sixteen replies, whatever their indices: the loop returns
    a 16-bit word; bit j of it is set exactly when some reply carries true
    with an index that is j after conversion to uint16, so replies with the
    same index are or-ed and a missing index leaves a 0; and every
    permutation of the replies gives the same word. *)
Theorem gather_any_replies (rs rs' : list OrderedVal) :
  length rs = 16%nat -> rs' ≡ₚ rs ->
  exists w : Z,
    gather 16 rs 0 = Some w
    /\ gather 16 rs' 0 = Some w
    /\ is_uint16 w
    /\ forall j, 0 <= j < 16 ->
         (Z.testbit w j = true
          <-> exists d, In d rs /\ Val_ d = true /\ uint16 (Idx d) = j).
Proof.
  intros Hlen Hperm. exists (fold_left collect rs 0).
  split; [now apply gather_fold|].
  split.
  { rewrite gather_fold by now rewrite (Permutation_length Hperm).
    f_equal. now apply fold_collect_perm. }
  split; [apply fold_collect_range, zero_range|].
  intros j Hj. rewrite fold_collect_testbit, Z.testbit_0_l by lia.
  cbn [orb]. rewrite existsb_exists. unfold hits.
  split.
  - intros (d & Hd & Hhit). exists d.
    apply andb_true_iff in Hhit as [Hval Hhit].
    apply andb_true_iff in Hhit as [_ Hhit%Z.eqb_eq]. auto.
  - intros (d & Hd & Hval & Hidx). exists d. split; [assumption|].
    rewrite Hval, Hidx, Z.eqb_refl. cbn [andb].
    rewrite andb_true_r. apply Z.ltb_lt. lia.
Qed.

Lemma gather_any_replies_witness :
  exists w : Z,
    gather 16 (replicate 16 (mkOrderedVal true 3)) 0 = Some w
    /\ gather 16 (rev (replicate 16 (mkOrderedVal true 3))) 0 = Some w
    /\ is_uint16 w
    /\ forall j, 0 <= j < 16 ->
         (Z.testbit w j = true
          <-> exists d, In d (replicate 16 (mkOrderedVal true 3))
                        /\ Val_ d = true /\ uint16 (Idx d) = j).
Proof.
  apply gather_any_replies.
  - reflexivity.
  - symmetry. apply Permutation_rev.
Defined.

End GatherFacts.

(** * The Register over several calls *)

Section RegisterFacts.

Import components sequential_bit word word_new.

Lemma Register_Update_schedule_independent_witness :
  exists reg' out tr1 tr2,
    Register_Update (seq 0 16)
      (mkRegister (replicate 16 (mkBit true false)) 1%nat) 9 true
      (Some 2%nat) 0 = Some (reg', out, tr1)
    /\ Register_Update (rev (seq 0 16))
         (mkRegister (replicate 16 (mkBit true false)) 1%nat) 9 true
         (Some 2%nat) 0 = Some (reg', out, tr2)
    /\ tr1 ≡ₚ tr2.
Proof.
  apply Register_Update_schedule_independent.
  - reflexivity.
  - unfold schedule. reflexivity.
  - unfold schedule. symmetry. apply Permutation_rev.
Defined.

Lemma wf_staged in_ load reg :
  wf reg -> wf (mkRegister (imap (staged in_ load) (bits reg)) (c reg)).
Proof. unfold wf. cbn [bits]. now rewrite length_imap. Qed.



Lemma staged_staged in1 load1 in2 load2 bs :
  imap (staged in2 load2) (imap (staged in1 load1) bs)
  = imap (staged in2 load2) bs.
Proof.
  apply list_eq. intros i. rewrite !list_lookup_imap.
  now destruct (bs !! i).
Qed.

Lemma reply_staged in_ load bs i :
  reply (imap (staged in_ load) bs) i = reply bs i.
Proof.
  unfold reply. rewrite list_lookup_imap. now destruct (bs !! i).
Qed.

(** X14. The last [Update] before a [Tick] decides: a call made after an
    earlier call of the same cycle returns the word, leaves the register
    and sends the messages of the same call made alone; what the earlier
    call staged is overwritten. *)
Theorem Register_Update_overrides (sched1 sched2 : list nat)
    (reg : Register) (in1 in2 : Z) (load1 load2 : bool)
    (ch1 ch2 : option chan) (idx1 idx2 : Z) :
  wf reg -> schedule sched1 -> schedule sched2 ->
  exists reg1 out1 tr1 reg2 out2 tr2,
    Register_Update sched1 reg in1 load1 ch1 idx1 = Some (reg1, out1, tr1)
    /\ Register_Update sched2 reg1 in2 load2 ch2 idx2
       = Some (reg2, out2, tr2)
    /\ Register_Update sched2 reg in2 load2 ch2 idx2
       = Some (reg2, out2, tr2)
    /\ out2 = out1.
Proof.
  intros Hwf Hs1 Hs2. eexists _, _, _, _, _, _.
  split; [now apply Register_Update_returns|].
  rewrite (Register_Update_returns sched2 reg) by assumption.
  rewrite Register_Update_returns by (try apply wf_staged; assumption).
  cbn [bits c]. rewrite staged_staged, current_staged.
  split; [|split; reflexivity].
  do 3 f_equal. apply list_fmap_ext. intros k i _.
  now rewrite reply_staged.
Qed.

Lemma Register_Update_overrides_witness :
  exists reg1 out1 tr1 reg2 out2 tr2,
    Register_Update (seq 0 16)
      (mkRegister (replicate 16 (mkBit true false)) 1%nat) 9 true None 0
    = Some (reg1, out1, tr1)
    /\ Register_Update (rev (seq 0 16)) reg1 6 true (Some 2%nat) 3
       = Some (reg2, out2, tr2)
    /\ Register_Update (rev (seq 0 16))
         (mkRegister (replicate 16 (mkBit true false)) 1%nat) 6 true
         (Some 2%nat) 3
       = Some (reg2, out2, tr2)
    /\ out2 = out1.
Proof.
  apply Register_Update_overrides.
  - reflexivity.
  - unfold schedule. reflexivity.
  - unfold schedule. symmetry. apply Permutation_rev.
Defined.

Lemma ticked_hold in_ bs :
  current <$> (Bit_Tick <$> imap (staged in_ false) bs) = current <$> bs.
Proof.
  apply list_eq. intros i.
  rewrite !list_lookup_fmap, list_lookup_imap. now destruct (bs !! i).
Qed.

(** X15. Hold: an [Update] with load false followed by [Tick] keeps every
    current value, so the next [Update] returns the same word again. *)
Theorem Register_hold (sched1 sched2 : list nat) (reg : Register)
    (in1 in2 : Z) (load2 : bool) (ch1 ch2 : option chan) (idx1 idx2 : Z) :
  wf reg -> schedule sched1 -> schedule sched2 ->
  exists reg1 out tr1 reg2 tr2,
    Register_Update sched1 reg in1 false ch1 idx1 = Some (reg1, out, tr1)
    /\ current <$> bits (Register_Tick reg1) = current <$> bits reg
    /\ Register_Update sched2 (Register_Tick reg1) in2 load2 ch2 idx2
       = Some (reg2, out, tr2).
Proof.
  intros Hwf Hs1 Hs2. eexists _, _, _, _, _.
  split; [now apply Register_Update_returns|].
  cbn [Register_Tick bits c]. split; [apply ticked_hold|].
  rewrite Register_Update_returns; [|unfold wf in *|assumption].
  - cbn [Register_Tick bits c]. rewrite ticked_hold. reflexivity.
  - cbn [Register_Tick bits]. now rewrite length_fmap, length_imap.
Qed.

Lemma Register_hold_witness :
  exists reg1 out tr1 reg2 tr2,
    Register_Update (seq 0 16)
      (mkRegister (replicate 16 (mkBit true false)) 1%nat) 9 false None 0
    = Some (reg1, out, tr1)
    /\ current <$> bits (Register_Tick reg1) = replicate 16 true
    /\ Register_Update (rev (seq 0 16)) (Register_Tick reg1) 6 true
         (Some 2%nat) 3
       = Some (reg2, out, tr2).
Proof.
  apply (Register_hold (seq 0 16) (rev (seq 0 16))
           (mkRegister (replicate 16 (mkBit true false)) 1%nat)).
  - reflexivity.
  - unfold schedule. reflexivity.
  - unfold schedule. symmetry. apply Permutation_rev.
Defined.

(** X16. The messages of a call with a channel: the sixteen replies of the
    lanes come first, lane i's tagged i and carrying the current value of
    Bit i, in the order of arrival; the word goes to the caller's channel
    after them, as the last message. *)
Theorem Register_Update_trace (sched : list nat) (reg : Register)
    (in_ : Z) (load : bool) (ch : chan) (idx : Z) :
  wf reg -> schedule sched ->
  exists reg' out tr,
    Register_Update sched reg in_ load (Some ch) idx = Some (reg', out, tr)
    /\ tr = ((fun i => Send (c reg) (reply (bits reg) i)) <$> sched)
            ++ [Send16 ch (mkOrderedVal16 out idx)]
    /\ inbox (c reg) tr ≡ₚ reply (bits reg) <$> seq 0 16
    /\ length (inbox (c reg) tr) = 16%nat.
Proof.
  intros Hwf Hsched. eexists _, _, _.
  split; [now apply Register_Update_returns|].
  split; [reflexivity|].
  assert (Hin : inbox (c reg)
                  (((fun i => Send (c reg) (reply (bits reg) i)) <$> sched)
                   ++ send16 (Some ch)
                        (mkOrderedVal16 (of_lanes (current <$> bits reg)) idx))
                = reply (bits reg) <$> sched).
  { unfold inbox. rewrite omap_app. cbn [send16 omap list_omap].
    rewrite app_nil_r. apply inbox_replies. }
  rewrite Hin. unfold schedule in Hsched. split.
  - now rewrite Hsched.
  - now rewrite length_fmap, (Permutation_length Hsched), length_seq.
Qed.

Lemma Register_Update_trace_witness :
  exists reg' out tr,
    Register_Update (rev (seq 0 16))
      (mkRegister (replicate 16 (mkBit true false)) 1%nat) 9 true
      (Some 2%nat) 3
    = Some (reg', out, tr)
    /\ tr = ((fun i => Send 1%nat
                         (reply (replicate 16 (mkBit true false)) i))
               <$> rev (seq 0 16))
            ++ [Send16 2%nat (mkOrderedVal16 out 3)]
    /\ inbox 1%nat tr
       ≡ₚ reply (replicate 16 (mkBit true false)) <$> seq 0 16
    /\ length (inbox 1%nat tr) = 16%nat.
Proof.
  apply (Register_Update_trace (rev (seq 0 16))
           (mkRegister (replicate 16 (mkBit true false)) 1%nat)).
  - reflexivity.
  - unfold schedule. symmetry. apply Permutation_rev.
Defined.

(** X17. A register made by [NewRegister] has sixteen Bits, so [Update] on
    it returns under every schedule; the first word read is 0x0000 or
    0xFFFF, all Bits being copies of the initial cell. *)
Theorem NewRegister_ready (newBit : Bit) (ch0 : chan) (sched : list nat)
    (in_ : Z) (load : bool) (ch : option chan) (idx : Z) :
  schedule sched ->
  wf (NewRegister newBit ch0)
  /\ exists reg' tr,
       Register_Update sched (NewRegister newBit ch0) in_ load ch idx
       = Some (reg', if current newBit then 65535 else 0, tr).
Proof.
  intros Hsched. split; [reflexivity|]. eexists _, _.
  rewrite Register_Update_returns by (assumption || reflexivity).
  destruct newBit as [[] p]; reflexivity.
Qed.

Lemma NewRegister_ready_witness :
  wf (NewRegister (mkBit false false) 1%nat)
  /\ exists reg' tr,
       Register_Update (rev (seq 0 16)) (NewRegister (mkBit false false) 1%nat)
         9 true None 0
       = Some (reg', 0, tr).
Proof.
  apply (NewRegister_ready (mkBit false false) 1%nat (rev (seq 0 16))).
  unfold schedule. symmetry. apply Permutation_rev.
Defined.

End RegisterFacts.
